(** * Relocation engine of [recover/recover_output64.py]

    A shallow embedding of [rebuild_output], [align_to_16_byte_boundary] and
    the [Relocation] namespace ([build_relocations],
    [apply_all_fixups_to_rfn], [preserve_original_imports]), followed by the
    properties of the relocation pipeline.

    Python objects that are shared between several lists (the
    [RecoveredInstr] objects of [normalized_flow], [relocs_imports],
    [relocs_ctrlflow] and [relocs_dataflow]) live in an object store indexed
    by [nat]; the lists hold indices.  Code that mutates [d] and may raise is
    written in a state-and-exception monad [M]: an exception keeps every
    mutation done before it, as in Python. *)

From Stdlib Require Import ZArith Lia.
From stdpp Require Import gmap strings list functions.

Local Open Scope Z_scope.

(** ** Data model *)

(** Bytes are 8-bit values carried as [Z]. *)
Abbreviation bytes_t := (list Z).

(** The capstone instruction ids the module names: the six ids of the [KNOWN]
    data-flow list, and every other id. *)
Inductive insn_id :=
| X86_INS_INC | X86_INS_LEA | X86_INS_CMOVE
| X86_INS_MOV | X86_INS_CMP | X86_INS_AND
| X86_INS_OTHER.

Global Instance insn_id_eq_dec : EqDecision insn_id.
Proof. solve_decision. Defined.

(** The decoded instruction wrapper ([r.instr], [r.reloc_instr]): the
    attributes and the results of the argument-less methods that the module
    reads. *)
Record Instr := mkInstr {
  ea : Z;
  bytes : bytes_t;
  size : Z;
  id : insn_id;
  mnemonic : string;
  is_call : bool;
  is_jcc : bool;
  is_jmp : bool;
  op1_imm : Z;          (* get_op1_imm() *)
  disp_size : Z;
  disp_offset : Z;
  disp_dest : Z
}.

Record RecoveredInstr := mkRecoveredInstr {
  instr : Instr;
  func_start_ea : Z;
  is_boundary_jmp : bool;
  is_obf_import : bool;
  updated_bytes : bytes_t;
  reloc_ea : Z;
  reloc_instr : option Instr
}.

Record RecoveredFunc := mkRecoveredFunc {
  rfn_func_start_ea : Z;
  rfn_reloc_ea : Z;
  normalized_flow : list nat;
  relocs_imports : list nat;
  relocs_ctrlflow : list nat;
  relocs_dataflow : list nat
}.

Record RecoveredImport := mkRecoveredImport {
  api_name : string;
  dll_name : string;
  new_rva : option Z
}.

(** A value of [d.imports]: a [RecoveredImport] or the string ['Empty']. *)
Inductive import_entry :=
| ImpEmpty
| Imp (e : RecoveredImport).

Inductive ProtectionType := HEADERLESS | SELECTIVE | FULL.

Inductive exn :=
| ValueError (tag : string)
| TypeError
| AssertionError
| AttributeError
| KsError
| StructError.

Inductive message :=
| MsgSkipSynthetic (r : nat)
| MsgNoImpEntry (r : nat)
| MsgNoNewRva (r : nat)
| MsgRelocatedImport (r : nat)
| MsgMissingDataflow
| MsgStoppingIteration
| MsgExn (e : exn)
| MsgPreserving (instr_ea : Z) (name : string).

(** What the run does that an observer can order in time: console output,
    operator prompts, log lines, every store into [d.global_relocs] and every
    entry into [apply_all_fixups_to_rfn]. *)
Inductive event :=
| EvPrint (m : message)
| EvInput (m : message)
| EvLogInfo (m : message)
| EvRelocSet (k : Z * Z * bool) (v : Z)
| EvFixups (func_start : Z).

(** [ProtectedInput64], restricted to the attributes this module touches.
    [cfg], [imports_to_preserve] are dicts iterated in insertion order;
    [data_range_rva] is the container of data addresses, seen through its
    membership test [in]; [instrs] is the store of the [RecoveredInstr]
    objects. *)
Record ProtectedInput64 := mkInput {
  protection_type : ProtectionType;
  cfg : list (Z * RecoveredFunc);
  instrs : nat → RecoveredInstr;
  global_relocs : gmap (Z * Z * bool) Z;
  newimgbuffer : bytes_t;
  imports : gmap Z import_entry;
  import_to_rva_map : gmap string Z;
  imports_to_preserve : list (Z * (string * Z));
  data_range_rva : Z → bool;
  selective_func_rva : Z;
  func_rva : option Z;
  events : list event
}.

(** Attribute stores. *)
Definition set_reloc_ea (v : Z) (r : RecoveredInstr) : RecoveredInstr :=
  mkRecoveredInstr (instr r) (func_start_ea r) (is_boundary_jmp r)
    (is_obf_import r) (updated_bytes r) v (reloc_instr r).

Definition set_updated_bytes (v : bytes_t) (r : RecoveredInstr) : RecoveredInstr :=
  mkRecoveredInstr (instr r) (func_start_ea r) (is_boundary_jmp r)
    (is_obf_import r) v (reloc_ea r) (reloc_instr r).

Definition set_is_obf_import (v : bool) (r : RecoveredInstr) : RecoveredInstr :=
  mkRecoveredInstr (instr r) (func_start_ea r) (is_boundary_jmp r)
    v (updated_bytes r) (reloc_ea r) (reloc_instr r).

Definition set_reloc_instr (v : option Instr) (r : RecoveredInstr) : RecoveredInstr :=
  mkRecoveredInstr (instr r) (func_start_ea r) (is_boundary_jmp r)
    (is_obf_import r) (updated_bytes r) (reloc_ea r) v.

Definition set_rfn_reloc_ea (v : Z) (f : RecoveredFunc) : RecoveredFunc :=
  mkRecoveredFunc (rfn_func_start_ea f) v (normalized_flow f)
    (relocs_imports f) (relocs_ctrlflow f) (relocs_dataflow f).

Definition set_new_rva (v : option Z) (e : RecoveredImport) : RecoveredImport :=
  mkRecoveredImport (api_name e) (dll_name e) v.

Definition set_cfg (v : list (Z * RecoveredFunc)) (d : ProtectedInput64) :=
  mkInput (protection_type d) v (instrs d) (global_relocs d) (newimgbuffer d)
    (imports d) (import_to_rva_map d) (imports_to_preserve d)
    (data_range_rva d) (selective_func_rva d) (func_rva d) (events d).

Definition set_instrs (v : nat → RecoveredInstr) (d : ProtectedInput64) :=
  mkInput (protection_type d) (cfg d) v (global_relocs d) (newimgbuffer d)
    (imports d) (import_to_rva_map d) (imports_to_preserve d)
    (data_range_rva d) (selective_func_rva d) (func_rva d) (events d).

Definition set_global_relocs (v : gmap (Z * Z * bool) Z) (d : ProtectedInput64) :=
  mkInput (protection_type d) (cfg d) (instrs d) v (newimgbuffer d)
    (imports d) (import_to_rva_map d) (imports_to_preserve d)
    (data_range_rva d) (selective_func_rva d) (func_rva d) (events d).

Definition set_newimgbuffer (v : bytes_t) (d : ProtectedInput64) :=
  mkInput (protection_type d) (cfg d) (instrs d) (global_relocs d) v
    (imports d) (import_to_rva_map d) (imports_to_preserve d)
    (data_range_rva d) (selective_func_rva d) (func_rva d) (events d).

Definition set_imports (v : gmap Z import_entry) (d : ProtectedInput64) :=
  mkInput (protection_type d) (cfg d) (instrs d) (global_relocs d)
    (newimgbuffer d) v (import_to_rva_map d) (imports_to_preserve d)
    (data_range_rva d) (selective_func_rva d) (func_rva d) (events d).

Definition set_import_to_rva_map (v : gmap string Z) (d : ProtectedInput64) :=
  mkInput (protection_type d) (cfg d) (instrs d) (global_relocs d)
    (newimgbuffer d) (imports d) v (imports_to_preserve d)
    (data_range_rva d) (selective_func_rva d) (func_rva d) (events d).

Definition set_func_rva (v : option Z) (d : ProtectedInput64) :=
  mkInput (protection_type d) (cfg d) (instrs d) (global_relocs d)
    (newimgbuffer d) (imports d) (import_to_rva_map d) (imports_to_preserve d)
    (data_range_rva d) (selective_func_rva d) v (events d).

Definition set_events (v : list event) (d : ProtectedInput64) :=
  mkInput (protection_type d) (cfg d) (instrs d) (global_relocs d)
    (newimgbuffer d) (imports d) (import_to_rva_map d) (imports_to_preserve d)
    (data_range_rva d) (selective_func_rva d) (func_rva d) v.

(** ** Python primitives *)

Definition len {A} (l : list A) : Z := Z.of_nat (length l).

(** A slice bound [i] of a sequence of length [n], as CPython adjusts it. *)
Definition py_index (n i : Z) : Z :=
  if i <? 0 then Z.max 0 (i + n) else Z.min i n.

(** [buf[lo:hi] = new] on a bytearray: never raises, may change the length. *)
Definition slice_assign (buf : bytes_t) (lo hi : Z) (new : bytes_t) : bytes_t :=
  let n := len buf in
  let lo' := py_index n lo in
  let hi' := Z.max lo' (py_index n hi) in
  take (Z.to_nat lo') buf ++ new ++ drop (Z.to_nat hi') buf.

Fixpoint starts_with (sub buf : bytes_t) : bool :=
  match sub, buf with
  | [], _ => true
  | _ :: _, [] => false
  | x :: sub', y :: buf' => (x =? y) && starts_with sub' buf'
  end.

(** Lowest index [>= i] where [sub] occurs, [suffix] being the sequence from
    index [i] on; [-1] when there is none. *)
Fixpoint find_from (sub suffix : bytes_t) (i : Z) : Z :=
  if starts_with sub suffix then i
  else match suffix with
       | [] => -1
       | _ :: t => find_from sub t (i + 1)
       end.

(** [buf.find(sub, start)]. *)
Definition py_find (buf sub : bytes_t) (start : Z) : Z :=
  let n := len buf in
  let s := if start <? 0 then Z.max 0 (start + n) else start in
  if n <? s then -1 else find_from sub (drop (Z.to_nat s) buf) s.

(** [str.upper] on the ASCII strings capstone returns as mnemonics: the
    letters a-z become A-Z, every other character stays. *)
Definition upper_char (c : Ascii.ascii) : Ascii.ascii :=
  let n := Ascii.N_of_ascii c in
  if ((97 <=? n) && (n <=? 122))%N then Ascii.ascii_of_N (n - 32) else c.

Fixpoint upper (s : string) : string :=
  match s with
  | EmptyString => EmptyString
  | String c s' => String (upper_char c) (upper s')
  end.

(** [struct.pack("<I", v)]: four little-endian bytes, [struct.error] when [v]
    is not an unsigned 32-bit value. *)
Definition le32 (v : Z) : bytes_t :=
  [Z.land v 255; Z.land (Z.shiftr v 8) 255;
   Z.land (Z.shiftr v 16) 255; Z.land (Z.shiftr v 24) 255].

(** The module's one pure function. *)
Definition align_to_16_byte_boundary (value : Z) : Z :=
  Z.land (value + 15) (Z.lnot 15).

(** ** The state-and-exception monad *)

Inductive result (A : Type) :=
| Ok (a : A)
| Raise (e : exn).
Arguments Ok {A} a.
Arguments Raise {A} e.

Definition M (A : Type) : Type := ProtectedInput64 → ProtectedInput64 * result A.

Global Instance M_ret : MRet M := λ A a d, (d, Ok a).

Global Instance M_bind : MBind M := λ A B f m d,
  match m d with
  | (d', Ok a) => f a d'
  | (d', Raise e) => (d', Raise e)
  end.

Definition raise {A} (e : exn) : M A := λ d, (d, Raise e).
Definition gets {A} (f : ProtectedInput64 → A) : M A := λ d, (d, Ok (f d)).
Definition modify (f : ProtectedInput64 → ProtectedInput64) : M unit :=
  λ d, (f d, Ok tt).
Definition py_assert (b : bool) : M unit :=
  if b then mret tt else raise AssertionError.
Definition lift {A} (r : result A) : M A := λ d, (d, r).

Definition emit (e : event) : M unit :=
  modify (λ d, set_events (events d ++ [e]) d).

(** [for x in l: body(x)]; a [continue] is the body returning early. *)
Fixpoint for_each {A} (body : A → M unit) (l : list A) : M unit :=
  match l with
  | [] => mret tt
  | x :: l' => body x ;; for_each body l'
  end.

(** [try: m  except Exception as e: print(e)]. *)
Definition try_print (m : M unit) : M unit := λ d,
  match m d with
  | (d', Ok _) => (d', Ok tt)
  | (d', Raise e) => emit (EvPrint (MsgExn e)) d'
  end.

Definition modify_instr (i : nat) (f : RecoveredInstr → RecoveredInstr) : M unit :=
  modify (λ d, set_instrs (<[i := f (instrs d i)]> (instrs d)) d).

(** [d.global_relocs[k] = v]. *)
Definition reloc_set (k : Z * Z * bool) (v : Z) : M unit :=
  modify (λ d, set_global_relocs (<[k := v]> (global_relocs d)) d) ;;
  emit (EvRelocSet k v).

(** [d.newimgbuffer[lo:hi] = new]. *)
Definition buffer_assign (lo hi : Z) (new : bytes_t) : M unit :=
  modify (λ d, set_newimgbuffer (slice_assign (newimgbuffer d) lo hi new) d).

(** ** The relocation engine *)

Section Relocation.

(** The disassembler [d.md.decode_buffer(bytes, address)]; [None] stands for a
    result without a [size] attribute. *)
Variable md_decode_buffer : bytes_t → Z → option Instr.

(** The assembler [d.ks.asm(f'{mnemonic} {dest:#08x}', address)[0]]; [None]
    stands for an assembler failure. *)
Variable ks_asm : string → Z → Z → option bytes_t.

(** The image-template builders of [helpers.pefile_utils]: the output buffer
    and the symbol-name to RVA map, computed from attributes of [d] that this
    module never writes.  The [bool] is [clear_text]. *)
Variable build_from_headerless_image_with_imports :
  ProtectedInput64 → bytes_t * gmap string Z.
Variable build_memory_image_with_imports :
  ProtectedInput64 → bool → bytes_t * gmap string Z.

(** *** Code emitter: first loop of [build_relocations] *)

(** [r.updated_bytes if r.updated_bytes else r.instr.bytes] *)
Definition ops_of (r : RecoveredInstr) : bytes_t :=
  if bool_decide (updated_bytes r = []) then bytes (instr r) else updated_bytes r.

(** Body of [for r in rfn.normalized_flow]; returns the advanced [curr_off]. *)
Definition emit_instr (func_ea curr_off : Z) (i : nat) : M Z :=
  r ← gets (λ d, instrs d i);
  reloc_set (func_ea, ea (instr r), is_boundary_jmp r) curr_off ;;
  modify_instr i (set_reloc_ea curr_off) ;;
  let ops := ops_of r in
  let size := len ops in
  buffer_assign curr_off (curr_off + size) ops ;;
  mret (curr_off + size).

Fixpoint emit_flow (func_ea : Z) (flow : list nat) (curr_off : Z) : M Z :=
  match flow with
  | [] => mret curr_off
  | i :: flow' => off ← emit_instr func_ea curr_off i; emit_flow func_ea flow' off
  end.

(** [for func_ea, rfn in d.cfg.items()]: the functions are rebuilt with their
    [reloc_ea] assigned, in dict order, threading [curr_off]. *)
Fixpoint emit_funcs (fs : list (Z * RecoveredFunc)) (curr_off : Z)
  : M (list (Z * RecoveredFunc)) :=
  match fs with
  | [] => mret []
  | (func_ea, rfn) :: fs' =>
      let rfn' := set_rfn_reloc_ea curr_off rfn in
      reloc_set (func_ea, func_ea, false) curr_off ;;
      off ← emit_flow func_ea (normalized_flow rfn) curr_off;
      rest ← emit_funcs fs' (align_to_16_byte_boundary (off + 8));
      mret ((func_ea, rfn') :: rest)
  end.

Definition emitter (starting_off : Z) : M unit :=
  fs ← gets cfg;
  fs' ← emit_funcs fs starting_off;
  modify (set_cfg fs').

(** *** Fixup helpers of [apply_all_fixups_to_rfn] *)

Definition PACK_FIXUP (fixup : Z) : result bytes_t :=
  if bool_decide (0 ≤ fixup < 2 ^ 32) then Ok (le32 fixup) else Raise StructError.

(** [(dest-(r.reloc_ea+size)) & 0xFFFFFFFF]; [dest] may be [None], on which
    the subtraction raises. *)
Definition CALC_FIXUP (r : RecoveredInstr) (dest : option Z) (size : Z) : result Z :=
  match dest with
  | Some dest => Ok (Z.land (dest - (reloc_ea r + size)) 0xFFFFFFFF)
  | None => Raise TypeError
  end.

Definition IS_IN_DATA (d : ProtectedInput64) (dest : Z) : bool :=
  data_range_rva d dest.

(** Truth value of an optional integer: [None] and [0] are false. *)
Definition truthy (v : option Z) : bool :=
  match v with
  | Some v => negb (v =? 0)
  | None => false
  end.

Definition resolve_disp_fixup_and_apply (i : nat) (dest : option Z) : M unit :=
  r ← gets (λ d, instrs d i);
  py_assert (disp_size (instr r) =? 4) ;;
  fixup ← lift (CALC_FIXUP r dest (size (instr r)));
  let offset := disp_offset (instr r) in
  packed ← lift (PACK_FIXUP fixup);
  modify_instr i (λ r,
    set_updated_bytes (slice_assign (updated_bytes r) offset (offset + 4) packed) r).

Definition resolve_imm_fixup_and_apply (i : nat) (reloc_dest : Z) : M unit :=
  r ← gets (λ d, instrs d i);
  py_assert (is_call (instr r) || is_jcc (instr r) || is_jmp (instr r)) ;;
  if is_call (instr r) then
    match ks_asm (mnemonic (instr r)) reloc_dest (reloc_ea r) with
    | Some bs => modify_instr i (set_updated_bytes bs)
    | None => raise KsError
    end
  else
    fixup ← lift (CALC_FIXUP r (Some reloc_dest) (len (updated_bytes r)));
    if is_jmp (instr r) then
      py_assert (len (updated_bytes r) =? 5) ;;
      packed ← lift (PACK_FIXUP fixup);
      modify_instr i (λ r, set_updated_bytes (slice_assign (updated_bytes r) 1 5 packed) r)
    else if is_jcc (instr r) then
      py_assert (len (updated_bytes r) =? 6) ;;
      packed ← lift (PACK_FIXUP fixup);
      modify_instr i (λ r, set_updated_bytes (slice_assign (updated_bytes r) 2 6 packed) r)
    else mret tt.

Definition update_reloc_in_img (i : nat) (tag : string) : M unit :=
  r ← gets (λ d, instrs d i);
  let decoded := md_decode_buffer (updated_bytes r) (reloc_ea r) in
  modify_instr i (set_reloc_instr decoded) ;;
  match decoded with
  | None => raise AttributeError
  | Some ri =>
      if bool_decide (len (updated_bytes r) ≠ size ri)
      then raise (ValueError ("Failed_" +:+ tag +:+ "_Reloc"))
      else buffer_assign (reloc_ea r) (reloc_ea r + size ri) (updated_bytes r)
  end.

(** *** The three fixup passes *)

(** Body of [for r in rfn.relocs_imports]. *)
Definition reloc_import (i : nat) : M unit :=
  r ← gets (λ d, instrs d i);
  if is_boundary_jmp r then
    modify_instr i (set_is_obf_import false) ;;
    emit (EvPrint (MsgSkipSynthetic i))
  else
    modify_instr i (set_updated_bytes (bytes (instr r))) ;;
    imp_entry ← gets (λ d, imports d !! ea (instr r));
    match imp_entry with
    | None => emit (EvInput (MsgNoImpEntry i))
    | Some ImpEmpty => mret tt
    | Some (Imp e) =>
        rva ← gets (λ d, import_to_rva_map d !! api_name e);
        modify (λ d,
          set_imports (<[ea (instr r) := Imp (set_new_rva rva e)]> (imports d)) d) ;;
        (if truthy rva then mret tt else emit (EvPrint (MsgNoNewRva i))) ;;
        resolve_disp_fixup_and_apply i rva ;;
        update_reloc_in_img i "Import" ;;
        emit (EvPrint (MsgRelocatedImport i))
    end.

(** [d.global_relocs.get(k)] followed by [if not reloc_dest: raise ValueError]. *)
Definition lookup_reloc (k : Z * Z * bool) (tag : string) : M Z :=
  g ← gets (λ d, global_relocs d !! k);
  if truthy g then mret (default 0 g) else raise (ValueError tag).

(** Body of [for r in rfn.relocs_ctrlflow]. *)
Definition reloc_ctrlflow (rfn : RecoveredFunc) (i : nat) : M unit :=
  r ← gets (λ d, instrs d i);
  if is_obf_import r then mret tt
  else
    let dest := op1_imm (instr r) in
    reloc_dest ←
      (if is_call (instr r)
       then lookup_reloc (dest, dest, false) "Call_Reloc"
       else lookup_reloc (rfn_func_start_ea rfn, dest, false) "JxxJmp_Reloc");
    py_assert (negb (reloc_dest =? -1)) ;;
    resolve_imm_fixup_and_apply i reloc_dest ;;
    update_reloc_in_img i "CtrlFlow".

Definition KNOWN : list insn_id :=
  [X86_INS_INC; X86_INS_LEA; X86_INS_CMOVE; X86_INS_MOV; X86_INS_CMP; X86_INS_AND].

(** The destination a data-flow fixup points at.  Outside the data region a
    lookup result of [None] fails in the formatting of the error message
    ([TypeError]), a result of [0] raises the [ValueError] itself, tagged
    with the upper-cased mnemonic. *)
Definition dataflow_dest (r : RecoveredInstr) : M Z :=
  let instr_tag := upper (mnemonic (instr r)) in
  let reloc_dest := disp_dest (instr r) in
  in_data ← gets (λ d, IS_IN_DATA d reloc_dest);
  if (in_data : bool) then mret reloc_dest
  else
    g ← gets (λ d, global_relocs d !! (reloc_dest, reloc_dest, false));
    match g with
    | None => raise TypeError
    | Some v =>
        if v =? 0 then raise (ValueError ("ResolveFixup_" +:+ instr_tag))
        else mret v
    end.

(** Body of [for r in rfn.relocs_dataflow]. *)
Definition reloc_dataflow (i : nat) : M unit :=
  r ← gets (λ d, instrs d i);
  (if bool_decide (id (instr r) ∈ KNOWN) then mret tt
   else emit (EvPrint MsgMissingDataflow) ;; emit (EvInput MsgStoppingIteration)) ;;
  modify_instr i (set_updated_bytes (bytes (instr r))) ;;
  reloc_dest ← dataflow_dest r;
  resolve_disp_fixup_and_apply i (Some reloc_dest) ;;
  update_reloc_in_img i "DataFlow".

Definition apply_all_fixups_to_rfn (rfn : RecoveredFunc) : M unit :=
  emit (EvFixups (rfn_func_start_ea rfn)) ;;
  for_each reloc_import (relocs_imports rfn) ;;
  for_each (reloc_ctrlflow rfn) (relocs_ctrlflow rfn) ;;
  for_each reloc_dataflow (relocs_dataflow rfn).

(** Body of the loop of [preserve_original_imports]. *)
Definition preserve_one (site : Z * (string * Z)) : M unit :=
  let '(instr_ea, (name, instr_size)) := site in
  rva ← gets (λ d, import_to_rva_map d !! name);
  (if truthy rva then mret tt else emit (EvLogInfo (MsgPreserving instr_ea name))) ;;
  fixup ← lift (match rva with
                | Some v => Ok (Z.land (v - (instr_ea + instr_size)) 0xFFFFFFFF)
                | None => Raise TypeError
                end);
  packed ← lift (PACK_FIXUP fixup);
  buffer_assign (instr_ea + 2) (instr_ea + 6) packed.

Definition preserve_original_imports : M unit :=
  sites ← gets imports_to_preserve;
  for_each preserve_one sites.

(** Second loop of [build_relocations]. *)
Definition fixups : M unit :=
  fs ← gets cfg;
  for_each (λ f, try_print (apply_all_fixups_to_rfn (snd f))) fs.

Definition build_relocations (starting_off : Z) (preserve : bool) : M unit :=
  emitter starting_off ;;
  fixups ;;
  if preserve then preserve_original_imports else mret tt.

(** *** [rebuild_output] *)

Definition END_MARKER : bytes_t :=
  [0xCC; 0xCC; 0xCC; 0xCC; 0x66; 0x66; 0x0F; 0x1F; 0x84; 0x00; 0x00; 0x00; 0x00; 0x00].

(** The block of the SELECTIVE case that finds the end of the protected
    function and clears the region; [bytearray(n)] raises on a negative [n]. *)
Definition clear_protected_region : M unit :=
  start ← gets selective_func_rva;
  buf ← gets newimgbuffer;
  let found := py_find buf END_MARKER start in
  let found := if found =? -1 then 0x15311 else found in
  let end_ := found + len END_MARKER in
  zeros ← (if end_ - start <? 0 then raise (ValueError "negative count")
           else mret (replicate (Z.to_nat (end_ - start)) 0));
  buffer_assign start end_ zeros.

Definition install_template (t : bytes_t * gmap string Z) : M unit :=
  modify (λ d, set_newimgbuffer (fst t) (set_import_to_rva_map (snd t) d)).

(** Everything of [rebuild_output] before the call of [build_relocations];
    returns the local [func_rva] that is passed as [starting_off]. *)
Definition prepare_output : M Z :=
  fs ← gets cfg;
  py_assert (negb (len fs =? 0)) ;;
  let func_rva := 0x1000 in
  ty ← gets protection_type;
  match ty with
  | HEADERLESS =>
      t ← gets build_from_headerless_image_with_imports;
      install_template t
  | SELECTIVE =>
      sel ← gets selective_func_rva;
      py_assert (negb (sel =? -1)) ;;
      t ← gets (λ d, build_memory_image_with_imports d false);
      install_template t ;;
      clear_protected_region ;;
      modify (λ d, set_func_rva (Some (selective_func_rva d)) d)
  | FULL =>
      t ← gets (λ d, build_memory_image_with_imports d true);
      install_template t
  end ;;
  mret func_rva.

Definition rebuild_output (preserve_imports : bool) : M unit :=
  func_rva ← prepare_output;
  build_relocations func_rva preserve_imports.


(** ** Definitions used to state the properties *)

(** Number of bytes the emitter writes for a flow. *)
Definition flow_size (d : ProtectedInput64) (flow : list nat) : Z :=
  foldr (λ i acc, len (ops_of (instrs d i)) + acc) 0 flow.

(** The stores into [d.global_relocs] the emitter makes for one flow laid out
    from [off], in order. *)
Fixpoint flow_writes (d : ProtectedInput64) (func_ea : Z) (flow : list nat) (off : Z)
  : list ((Z * Z * bool) * Z) :=
  match flow with
  | [] => []
  | i :: flow' =>
      ((func_ea, ea (instr (instrs d i)), is_boundary_jmp (instrs d i)), off)
        :: flow_writes d func_ea flow' (off + len (ops_of (instrs d i)))
  end.

(** Cursor after a function laid out at [off]. *)
Definition next_start (d : ProtectedInput64) (rfn : RecoveredFunc) (off : Z) : Z :=
  align_to_16_byte_boundary (off + flow_size d (normalized_flow rfn) + 8).

Fixpoint emit_writes (d : ProtectedInput64) (fs : list (Z * RecoveredFunc)) (off : Z)
  : list ((Z * Z * bool) * Z) :=
  match fs with
  | [] => []
  | (func_ea, rfn) :: fs' =>
      ((func_ea, func_ea, false), off)
        :: flow_writes d func_ea (normalized_flow rfn) off
        ++ emit_writes d fs' (next_start d rfn off)
  end.

(** The function table with every relocated start assigned. *)
Fixpoint layout (d : ProtectedInput64) (fs : list (Z * RecoveredFunc)) (off : Z)
  : list (Z * RecoveredFunc) :=
  match fs with
  | [] => []
  | (func_ea, rfn) :: fs' =>
      (func_ea, set_rfn_reloc_ea off rfn) :: layout d fs' (next_start d rfn off)
  end.

(** One key per function followed by one key per instruction of its flow. *)
Definition emit_keys (d : ProtectedInput64) : list (Z * Z * bool) :=
  flat_map (λ f,
    (fst f, fst f, false)
      :: map (λ i, (fst f, ea (instr (instrs d i)), is_boundary_jmp (instrs d i)))
             (normalized_flow (snd f)))
    (cfg d).

Definition reloc_event (w : (Z * Z * bool) * Z) : event := EvRelocSet (fst w) (snd w).

Definition store_all (g : gmap (Z * Z * bool) Z) (ws : list ((Z * Z * bool) * Z))
  : gmap (Z * Z * bool) Z :=
  foldl (λ g w, <[fst w := snd w]> g) g ws.

Definition is_output (e : event) : bool :=
  match e with EvPrint _ | EvInput _ | EvLogInfo _ => true | _ => false end.

(** The emitter leaves the code of every instruction object alone. *)
Definition same_code (d d' : ProtectedInput64) : Prop :=
  ∀ i, instr (instrs d' i) = instr (instrs d i)
       ∧ updated_bytes (instrs d' i) = updated_bytes (instrs d i)
       ∧ is_boundary_jmp (instrs d' i) = is_boundary_jmp (instrs d i).

(** A computation that neither stores into [d.global_relocs] nor replaces the
    function table, and whose events are console or log output only. *)
Definition quiet {A} (m : M A) : Prop :=
  ∀ d, global_relocs (m d).1 = global_relocs d
       ∧ cfg (m d).1 = cfg d
       ∧ ∃ E, events (m d).1 = events d ++ E ∧ Forall (λ e, is_output e = true) E.

(** A computation that leaves the output image buffer alone. *)
Definition keeps_buffer {A} (m : M A) : Prop :=
  ∀ d, newimgbuffer (m d).1 = newimgbuffer d.

(** The outcome [run] of a fixup step from [d] that has patched instruction
    [i] to the bytes [patched]: the instruction holds the patched bytes and,
    as its relocated instruction, what the disassembler makes of them at the
    relocated address; a decoded size different from their length is the
    [ValueError] tagged [tag] and a failed decoding an [AttributeError], both
    with the buffer as it was; only when the sizes agree does the step
    succeed, with the patched bytes written at the relocated address. *)
Definition checked_outcome (run : ProtectedInput64 * result unit)
    (d : ProtectedInput64) (i : nat) (tag : string) (patched : bytes_t) : Prop :=
  let r := instrs d i in
  let decoded := md_decode_buffer patched (reloc_ea r) in
  updated_bytes (instrs run.1 i) = patched
  ∧ reloc_instr (instrs run.1 i) = decoded
  ∧ match decoded with
    | Some ri =>
        if bool_decide (len patched ≠ size ri)
        then run.2 = Raise (ValueError ("Failed_" +:+ tag +:+ "_Reloc"))
             ∧ newimgbuffer run.1 = newimgbuffer d
        else run.2 = Ok tt
             ∧ newimgbuffer run.1
               = slice_assign (newimgbuffer d) (reloc_ea r) (reloc_ea r + size ri)
                   patched
    | None => run.2 = Raise AttributeError ∧ newimgbuffer run.1 = newimgbuffer d
    end.

(** The import step leaves the instruction out: it is a synthetic boundary
    jump, or its address has no import entry, or an empty one. *)
Definition import_skipped (d : ProtectedInput64) (r : RecoveredInstr) : Prop :=
  is_boundary_jmp r = true
  ∨ imports d !! ea (instr r) = None
  ∨ imports d !! ea (instr r) = Some ImpEmpty.

(** How a fixup step [run] on instruction [i] from [d] can end.  A fault
    leaves the buffer as it was.  A normal return is either a skip (under
    [skipped]) with the buffer as it was, or it leaves the instruction with
    bytes that the disassembler decodes, at the relocated address, to an
    instruction of exactly their length, recorded as its relocated
    instruction, and the buffer with those bytes written at that address. *)
Definition checked_or_skipped (run : ProtectedInput64 * result unit)
    (d : ProtectedInput64) (i : nat) (skipped : Prop) : Prop :=
  let r' := instrs run.1 i in
  match run.2 with
  | Ok _ =>
      (skipped ∧ newimgbuffer run.1 = newimgbuffer d)
      ∨ ∃ ri, md_decode_buffer (updated_bytes r') (reloc_ea r') = Some ri
              ∧ reloc_instr r' = Some ri
              ∧ size ri = len (updated_bytes r')
              ∧ newimgbuffer run.1
                = slice_assign (newimgbuffer d) (reloc_ea r') (reloc_ea r' + size ri)
                    (updated_bytes r')
  | Raise _ => newimgbuffer run.1 = newimgbuffer d
  end.

(** Reading a patched displacement back: the unsigned little-endian value of
    the four bytes at [off], its two's-complement reading, and the absolute
    address a rip-relative operand then designates (address of the next
    instruction plus displacement). *)
Definition read_le32 (bs : bytes_t) (off : Z) : Z :=
  let b k := default 0 (bs !! Z.to_nat (off + k)) in
  b 0 + 256 * b 1 + 65536 * b 2 + 16777216 * b 3.

Definition signed32 (v : Z) : Z := if v <? 2 ^ 31 then v else v - 2 ^ 32.

Definition rip_target (r : RecoveredInstr) : Z :=
  reloc_ea r + size (instr r)
  + signed32 (read_le32 (updated_bytes r) (disp_offset (instr r))).

(** [buf] with the bytes of [lo, hi) replaced by zeros. *)
Definition zero_range (buf : bytes_t) (lo hi : Z) : bytes_t :=
  take (Z.to_nat lo) buf ++ replicate (Z.to_nat (hi - lo)) 0 ++ drop (Z.to_nat hi) buf.

(** [bs] with the four bytes from [off] replaced by the little-endian [v]. *)
Definition with_disp32 (bs : bytes_t) (off v : Z) : bytes_t :=
  take (Z.to_nat off) bs ++ le32 v ++ drop (Z.to_nat (off + 4)) bs.

(** [d'] is [d] after the stores [ws] of the emitter. *)
Definition emitted (d d' : ProtectedInput64) (ws : list ((Z * Z * bool) * Z)) : Prop :=
  same_code d d'
  ∧ cfg d' = cfg d
  ∧ events d' = events d ++ map reloc_event ws
  ∧ global_relocs d' = store_all (global_relocs d) ws.

(** The stores into [d.global_relocs] and the entries into
    [apply_all_fixups_to_rfn] recorded in a stretch of events, in order. *)
Definition reloc_stores (E : list event) : list ((Z * Z * bool) * Z) :=
  flat_map (λ e, match e with EvRelocSet k v => [(k, v)] | _ => [] end) E.

Definition fixup_entries (E : list event) : list Z :=
  flat_map (λ e, match e with EvFixups f => [f] | _ => [] end) E.

(** The target an import fixup and a data-flow fixup resolve to. *)
Definition import_target (d : ProtectedInput64) (r : RecoveredInstr) (t : Z) : Prop :=
  ∃ e, imports d !! ea (instr r) = Some (Imp e)
       ∧ import_to_rva_map d !! api_name e = Some t.

Definition dataflow_target (d : ProtectedInput64) (r : RecoveredInstr) (t : Z) : Prop :=
  let dest := disp_dest (instr r) in
  if IS_IN_DATA d dest then t = dest
  else global_relocs d !! (dest, dest, false) = Some t ∧ t ≠ 0.

(** A computation that moves no instruction object and leaves its decoded
    original instruction alone. *)
Definition keeps_addr {A} (m : M A) : Prop :=
  ∀ d j, reloc_ea (instrs (m d).1 j) = reloc_ea (instrs d j)
         ∧ instr (instrs (m d).1 j) = instr (instrs d j).

(** ** Sample inputs *)

(** A disassembler that decodes the whole byte sequence as one instruction,
    and an assembler that produces the 5-byte near call. *)
Definition sample_decode (bs : bytes_t) (addr : Z) : option Instr :=
  Some (mkInstr addr bs (len bs) X86_INS_OTHER "" false false false 0 0 0 0).

(** A disassembler that stops one byte short of the sequence. *)
Definition short_decode (bs : bytes_t) (addr : Z) : option Instr :=
  Some (mkInstr addr bs (len bs - 1) X86_INS_OTHER "" false false false 0 0 0 0).

Definition sample_asm (mn : string) (dest addr : Z) : option bytes_t :=
  Some (0xE8 :: le32 ((dest - (addr + 5)) mod 2 ^ 32)).

(** Template builders that return a given buffer and an empty import map. *)
Definition sample_headerless (buf : bytes_t) (d : ProtectedInput64)
  : bytes_t * gmap string Z := (buf, ∅).

Definition sample_template (buf : bytes_t) (d : ProtectedInput64) (clear_text : bool)
  : bytes_t * gmap string Z := (buf, ∅).

(** The data region [0x60000, 0x70000). *)
Definition sample_data_range (a : Z) : bool := (0x60000 <=? a) && (a <? 0x70000).

Definition sample_instr (ins : Instr) (func : Z) (boundary : bool)
    (placeholder : bytes_t) (reloc : Z) : RecoveredInstr :=
  mkRecoveredInstr ins func boundary false placeholder reloc None.

Definition plain_ins (address : Z) (code : bytes_t) : Instr :=
  mkInstr address code (len code) X86_INS_OTHER "" false false false 0 0 0 0.

(** Two functions, [push rbp; ret] at 0x2000 and [ret] at 0x3000. *)
Definition layout_store (i : nat) : RecoveredInstr :=
  match i with
  | O => sample_instr (plain_ins 0x2000 [0x55]) 0x2000 false [] 0
  | S O => sample_instr (plain_ins 0x2001 [0xC3]) 0x2000 false [] 0
  | _ => sample_instr (plain_ins 0x3000 [0xC3]) 0x3000 false [] 0
  end.

Definition layout_input : ProtectedInput64 :=
  mkInput FULL
    [(0x2000, mkRecoveredFunc 0x2000 0 [0%nat; 1%nat] [] [] []);
     (0x3000, mkRecoveredFunc 0x3000 0 [2%nat] [] [] [])]
    layout_store ∅ (replicate 64 0) ∅ ∅ [] sample_data_range (-1) None [].

(** A synthetic boundary [jmp 0x2010] of the function at 0x2000, relocated to
    0x1000 with its 5-byte placeholder; the relocation map holds the target
    under both values of the flag. *)
Definition jump_func : RecoveredFunc :=
  mkRecoveredFunc 0x2000 0x1000 [0%nat] [] [0%nat] [].

Definition jump_input : ProtectedInput64 :=
  mkInput FULL [(0x2000, jump_func)]
    (λ _, sample_instr
            (mkInstr 0x2004 [0xEB; 0x0A] 2 X86_INS_OTHER "jmp" false false true
                     0x2010 0 0 0)
            0x2000 true [0xE9; 0; 0; 0; 0] 0x1000)
    (<[(0x2000, 0x2010, true) := 0x1100]> {[(0x2000, 0x2010, false) := 0x1020]})
    (replicate 64 0) ∅ ∅ [] sample_data_range (-1) None [].

(** [mov dword ptr [rip+0x61dd1], 1] at 0x29ad, relocated to 0x1000; its
    destination 0x64788 lies in the data region, and the relocation map holds
    an entry for that address all the same. *)
Definition data_ins : Instr :=
  mkInstr 0x29ad [0xC7; 0x05; 0xD1; 0x1D; 0x06; 0x00; 0x01; 0x00; 0x00; 0x00] 10
    X86_INS_MOV "mov" false false false 0 4 2 0x64788.

Definition data_input : ProtectedInput64 :=
  mkInput FULL [(0x2000, mkRecoveredFunc 0x2000 0x1000 [0%nat] [] [] [0%nat])]
    (λ _, sample_instr data_ins 0x2000 false [] 0x1000)
    {[(0x64788, 0x64788, false) := 0x1234]}
    (replicate 64 0) ∅ ∅ [] sample_data_range (-1) None [].

(** [call qword ptr [rip+0x3000]] at 0x2000, relocated to 0x1000, with its
    import entry and, or not, the new RVA of its symbol. *)
Definition import_ins : Instr :=
  mkInstr 0x2000 [0xFF; 0x15; 0x00; 0x30; 0x00; 0x00] 6
    X86_INS_OTHER "call" true false false 0 4 2 0x5006.

Definition import_input (imps : gmap Z import_entry) (rvas : gmap string Z)
  : ProtectedInput64 :=
  mkInput FULL [(0x2000, mkRecoveredFunc 0x2000 0x1000 [0%nat] [0%nat] [] [])]
    (λ _, sample_instr import_ins 0x2000 false [] 0x1000)
    ∅ (replicate 64 0x90) imps rvas [] sample_data_range (-1) None [].

Definition create_file : import_entry :=
  Imp (mkRecoveredImport "CreateFileW" "kernel32.dll" None).

(** SELECTIVE mode: the selected function starts at offset 2 of the template,
    the sentinel follows its two bytes at offset 4. *)
Definition selective_template : bytes_t :=
  [0x11; 0x22; 0x90; 0xC3] ++ END_MARKER ++ [0x55].

Definition selective_input : ProtectedInput64 :=
  mkInput SELECTIVE [(0x2000, mkRecoveredFunc 0x2000 0 [0%nat] [] [] [])]
    (λ _, sample_instr (plain_ins 0x2000 [0xC3]) 0x2000 false [] 0)
    ∅ [] ∅ ∅ [] sample_data_range 2 None [].

(** Two preserved call sites; only the second symbol has a new RVA. *)
Definition preserve_input : ProtectedInput64 :=
  mkInput SELECTIVE []
    (λ _, sample_instr (plain_ins 0 []) 0 false [] 0)
    ∅ (replicate 64 0x90) ∅ {["ExitProcess" := 0x5010]}
    [(0x10, ("GetLastError", 6)); (0x20, ("ExitProcess", 6))]
    sample_data_range (-1) None [].

(** ** Further definitions used to state properties *)

(** [buf] with [code] written from the non-negative offset [off] on, the way
    a slice assignment [buf[off:off+len(code)] = code] does it: an offset past
    the end appends. *)
Definition splice (buf : bytes_t) (off : Z) (code : bytes_t) : bytes_t :=
  take (Z.to_nat off) buf ++ code ++ drop (Z.to_nat (off + len code)) buf.

(** The bytes the emitter writes for a flow, in order. *)
Definition flow_code (d : ProtectedInput64) (flow : list nat) : bytes_t :=
  flat_map (λ i, ops_of (instrs d i)) flow.

(** The value of the last store under key [k] in a sequence of stores. *)
Fixpoint last_store (ws : list ((Z * Z * bool) * Z)) (k : Z * Z * bool) : option Z :=
  match ws with
  | [] => None
  | w :: ws' =>
      match last_store ws' k with
      | Some v => Some v
      | None => if decide (fst w = k) then Some (snd w) else None
      end
  end.

(** What one call site of the preservation pass does to the buffer when its
    symbol has an RVA in [rvas]. *)
Definition preserve_patch (rvas : gmap string Z) (buf : bytes_t)
    (site : Z * (string * Z)) : bytes_t :=
  match rvas !! fst (snd site) with
  | Some v =>
      slice_assign buf (fst site + 2) (fst site + 6)
        (le32 ((v - (fst site + snd (snd site))) mod 2 ^ 32))
  | None => buf
  end.

(** The key a control-flow fixup looks its target up under. *)
Definition ctrlflow_key (rfn : RecoveredFunc) (r : RecoveredInstr) : Z * Z * bool :=
  if is_call (instr r)
  then (op1_imm (instr r), op1_imm (instr r), false)
  else (rfn_func_start_ea rfn, op1_imm (instr r), false).

(** A computation that leaves the attribute [proj] of [d] as it was. *)
Definition keeps {X A} (proj : ProtectedInput64 → X) (m : M A) : Prop :=
  ∀ d, proj (m d).1 = proj d.

(** ** Further sample inputs *)

(** [call 0x3000] in the function at 0x2000, relocated to 0x1000; the function
    at 0x3000 is relocated to 0x1400. *)
Definition call_input : ProtectedInput64 :=
  mkInput FULL [(0x2000, mkRecoveredFunc 0x2000 0x1000 [0%nat] [] [0%nat] [])]
    (λ _, sample_instr
            (mkInstr 0x2000 [0xE8; 0xFB; 0x0F; 0x00; 0x00] 5 X86_INS_OTHER "call"
               true false false 0x3000 0 0 0)
            0x2000 false [] 0x1000)
    {[(0x3000, 0x3000, false) := 0x1400]}
    (replicate 64 0) ∅ ∅ [] sample_data_range (-1) None [].

(** The jump of [jump_input] with a 2-byte placeholder. *)
Definition short_jump_input : ProtectedInput64 :=
  set_instrs
    (λ _, sample_instr
            (mkInstr 0x2004 [0xEB; 0x0A] 2 X86_INS_OTHER "jmp" false false true
               0x2010 0 0 0)
            0x2000 true [0xEB; 0x0A] 0x1000)
    jump_input.

(** The jump of [jump_input] marked as an obfuscated import. *)
Definition boundary_import_input : ProtectedInput64 :=
  set_instrs
    (λ _, mkRecoveredInstr
            (mkInstr 0x2004 [0xEB; 0x0A] 2 X86_INS_OTHER "jmp" false false true
               0x2010 0 0 0)
            0x2000 true true [0xE9; 0; 0; 0; 0] 0x1000 None)
    jump_input.

(** [lea rax, [rip+0x10fae]] at 0x35ee5, an instruction id outside [KNOWN]
    here, relocated to offset 0x10 of a 64-byte buffer; its destination
    0x46e9a is a function relocated to 0x1400, outside the data region. *)
Definition code_ref_ins : Instr :=
  mkInstr 0x35ee5 [0x48; 0x8D; 0x05; 0xAE; 0x0F; 0x01; 0x00] 7
    X86_INS_OTHER "lea" false false false 0 4 3 0x46e9a.

Definition code_ref_input (relocs : gmap (Z * Z * bool) Z) : ProtectedInput64 :=
  mkInput FULL [(0x2000, mkRecoveredFunc 0x2000 0x10 [0%nat] [] [] [0%nat])]
    (λ _, sample_instr code_ref_ins 0x2000 false [] 0x10)
    relocs (replicate 64 0) ∅ ∅ [] sample_data_range (-1) None [].

(** SELECTIVE mode with a template that holds no sentinel. *)
Definition bare_template : bytes_t := [0x11; 0x22; 0x90; 0xC3].

(** Two preserved call sites whose symbols both have a new RVA. *)
Definition preserve_all_input : ProtectedInput64 :=
  mkInput SELECTIVE []
    (λ _, sample_instr (plain_ins 0 []) 0 false [] 0)
    ∅ (replicate 64 0x90) ∅
    (<["GetLastError" := 0x5008]> {["ExitProcess" := 0x5010]})
    [(0x10, ("GetLastError", 6)); (0x20, ("ExitProcess", 6))]
    sample_data_range (-1) None [].

(** ** Arithmetic and byte-sequence facts *)

Lemma align_to_16_byte_boundary_eq value :
  align_to_16_byte_boundary value = 16 * ((value + 15) / 16).
Proof.
  unfold align_to_16_byte_boundary.
  change (Z.lnot 15) with (Z.lnot (Z.ones 4)).
  rewrite <- Z.ldiff_land, Z.ldiff_ones_r by lia.
  rewrite Z.shiftl_mul_pow2, Z.shiftr_div_pow2 by lia.
  change (2 ^ 4) with 16. lia.
Qed.

Lemma align_to_16_byte_boundary_mod value :
  align_to_16_byte_boundary value mod 16 = 0.
Proof.
  rewrite align_to_16_byte_boundary_eq, Z.mul_comm. apply Z_mod_mult.
Qed.

Lemma align_to_16_byte_boundary_bounds value :
  value ≤ align_to_16_byte_boundary value < value + 16.
Proof.
  rewrite align_to_16_byte_boundary_eq.
  pose proof (Z.div_mod (value + 15) 16 ltac:(lia)).
  pose proof (Z.mod_pos_bound (value + 15) 16 ltac:(lia)). lia.
Qed.

Lemma land_mask32 v : Z.land v 0xFFFFFFFF = v mod 2 ^ 32.
Proof. change 0xFFFFFFFF with (Z.ones 32). apply Z.land_ones. lia. Qed.

Lemma PACK_FIXUP_masked v : PACK_FIXUP (Z.land v 0xFFFFFFFF) = Ok (le32 (v mod 2 ^ 32)).
Proof.
  rewrite land_mask32. unfold PACK_FIXUP.
  pose proof (Z.mod_pos_bound v (2 ^ 32) ltac:(lia)).
  rewrite bool_decide_eq_true_2 by lia. done.
Qed.

Lemma len_nonneg {A} (l : list A) : 0 ≤ len l.
Proof. unfold len. lia. Qed.

Lemma len_le32 v : len (le32 v) = 4.
Proof. reflexivity. Qed.

Lemma slice_assign_inside buf lo new :
  0 ≤ lo → lo + len new ≤ len buf →
  slice_assign buf lo (lo + len new) new
  = take (Z.to_nat lo) buf ++ new ++ drop (Z.to_nat (lo + len new)) buf.
Proof.
  intros Hlo Hhi. pose proof (len_nonneg new) as Hn. unfold slice_assign, py_index.
  destruct (lo <? 0) eqn:E1; [apply Z.ltb_lt in E1; lia|].
  destruct (lo + len new <? 0) eqn:E2; [apply Z.ltb_lt in E2; lia|].
  rewrite (Z.min_l lo) by lia.
  rewrite (Z.min_l (lo + len new)) by lia.
  rewrite Z.max_r by lia. done.
Qed.

Lemma slice_assign_inside_length buf lo new :
  0 ≤ lo → lo + len new ≤ len buf →
  length (slice_assign buf lo (lo + len new) new) = length buf.
Proof.
  intros Hlo Hhi. rewrite slice_assign_inside by done.
  unfold len in *. rewrite !length_app, length_take, length_drop. lia.
Qed.

Lemma slice_assign_disp32 bs off v :
  0 ≤ off → off + 4 ≤ len bs →
  slice_assign bs off (off + 4) (le32 v) = with_disp32 bs off v.
Proof.
  intros. change 4 with (len (le32 v)). rewrite slice_assign_inside; done.
Qed.

Lemma with_disp32_length bs off v :
  0 ≤ off → off + 4 ≤ len bs → length (with_disp32 bs off v) = length bs.
Proof.
  intros. unfold with_disp32, len in *.
  rewrite !length_app, length_take, length_drop. simpl. lia.
Qed.

(** Bytes before the displacement field are the original ones. *)
Lemma with_disp32_lookup_before bs off v (j : nat) :
  0 ≤ off → off + 4 ≤ len bs → Z.of_nat j < off →
  with_disp32 bs off v !! j = bs !! j.
Proof.
  intros. unfold with_disp32, len in *.
  rewrite lookup_app_l by (rewrite length_take; lia).
  apply lookup_take_lt. lia.
Qed.

(** Bytes after the displacement field are the original ones. *)
Lemma with_disp32_lookup_after bs off v (j : nat) :
  0 ≤ off → off + 4 ≤ len bs → off + 4 ≤ Z.of_nat j →
  with_disp32 bs off v !! j = bs !! j.
Proof.
  intros. unfold with_disp32, len in *.
  rewrite lookup_app_r by (rewrite length_take; lia).
  rewrite lookup_app_r by (rewrite length_take; simpl; lia).
  rewrite lookup_drop, length_take. simpl. f_equal. lia.
Qed.

(** The displacement field holds the four bytes of [v]. *)
Lemma with_disp32_lookup_field bs off v (k : nat) :
  0 ≤ off → off + 4 ≤ len bs → (k < 4)%nat →
  with_disp32 bs off v !! (Z.to_nat off + k)%nat = le32 v !! k.
Proof.
  intros. unfold with_disp32, len in *.
  rewrite lookup_app_r by (rewrite length_take; lia).
  rewrite length_take, lookup_app_l by (simpl; lia).
  f_equal. lia.
Qed.

Lemma le32_value v :
  0 ≤ v < 2 ^ 32 →
  Z.land v 255 + 256 * Z.land (Z.shiftr v 8) 255
  + 65536 * Z.land (Z.shiftr v 16) 255 + 16777216 * Z.land (Z.shiftr v 24) 255 = v.
Proof.
  intros Hv. change 255 with (Z.ones 8).
  rewrite !Z.land_ones, !Z.shiftr_div_pow2 by lia.
  change (2 ^ 8) with 256. change (2 ^ 16) with 65536. change (2 ^ 24) with 16777216.
  change (2 ^ 32) with 4294967296 in Hv.
  pose proof (Z.div_mod v 256 ltac:(lia)).
  pose proof (Z.div_mod (v / 256) 256 ltac:(lia)).
  pose proof (Z.div_mod (v / 256 / 256) 256 ltac:(lia)).
  assert (v / 65536 = v / 256 / 256) as -> by (rewrite Z.div_div by lia; done).
  assert (v / 16777216 = v / 256 / 256 / 256) as ->
    by (rewrite !Z.div_div by lia; done).
  assert (0 ≤ v / 256 / 256 / 256 < 256).
  { split; [repeat apply Z.div_pos; lia|].
    rewrite !Z.div_div by lia. apply Z.div_lt_upper_bound; lia. }
  rewrite (Z.mod_small (v / 256 / 256 / 256)) by lia. lia.
Qed.

Lemma read_le32_with_disp32 bs off v :
  0 ≤ off → off + 4 ≤ len bs → 0 ≤ v < 2 ^ 32 →
  read_le32 (with_disp32 bs off v) off = v.
Proof.
  intros Ho Hl Hv. unfold read_le32.
  replace (Z.to_nat (off + 0)) with (Z.to_nat off + 0)%nat by lia.
  replace (Z.to_nat (off + 1)) with (Z.to_nat off + 1)%nat by lia.
  replace (Z.to_nat (off + 2)) with (Z.to_nat off + 2)%nat by lia.
  replace (Z.to_nat (off + 3)) with (Z.to_nat off + 3)%nat by lia.
  rewrite !with_disp32_lookup_field by lia. simpl.
  apply le32_value. done.
Qed.

Lemma signed32_mod x :
  - 2 ^ 31 ≤ x < 2 ^ 31 → signed32 (x mod 2 ^ 32) = x.
Proof.
  intros Hx. unfold signed32.
  change (2 ^ 31) with 2147483648 in *. change (2 ^ 32) with 4294967296 in *.
  destruct (Z_lt_le_dec x 0).
  - replace (x mod 4294967296) with (x + 4294967296).
    + destruct (x + 4294967296 <? 2147483648) eqn:E; [apply Z.ltb_lt in E|]; lia.
    + apply (Z.mod_unique _ _ (-1)); lia.
  - rewrite Z.mod_small by lia.
    destruct (x <? 2147483648) eqn:E; [|apply Z.ltb_ge in E]; lia.
Qed.

(** ** The emitter *)

Lemma same_code_refl d : same_code d d.
Proof. intros i. done. Qed.

Lemma same_code_trans d1 d2 d3 : same_code d1 d2 → same_code d2 d3 → same_code d1 d3.
Proof.
  intros H12 H23 i. destruct (H12 i) as (?&?&?), (H23 i) as (?&?&?).
  repeat split; congruence.
Qed.

Lemma same_code_ops d d' i : same_code d d' → ops_of (instrs d' i) = ops_of (instrs d i).
Proof. intros H. destruct (H i) as (Hi&Hu&_). unfold ops_of. by rewrite Hi, Hu. Qed.

Lemma flow_size_same_code d d' flow : same_code d d' → flow_size d' flow = flow_size d flow.
Proof.
  intros H. induction flow as [|i flow IH]; [done|].
  simpl. fold (flow_size d' flow) (flow_size d flow).
  by rewrite IH, (same_code_ops d d').
Qed.

Lemma flow_writes_same_code d d' func_ea flow off :
  same_code d d' → flow_writes d' func_ea flow off = flow_writes d func_ea flow off.
Proof.
  intros H. revert off. induction flow as [|i flow IH]; intros off; [done|].
  simpl. destruct (H i) as (Hi&_&Hb).
  by rewrite IH, (same_code_ops d d'), Hi, Hb.
Qed.

Lemma next_start_same_code d d' rfn off :
  same_code d d' → next_start d' rfn off = next_start d rfn off.
Proof. intros H. unfold next_start. by rewrite (flow_size_same_code d d'). Qed.

Lemma emit_writes_same_code d d' fs off :
  same_code d d' → emit_writes d' fs off = emit_writes d fs off.
Proof.
  intros H. revert off. induction fs as [|[func_ea rfn] fs IH]; intros off; [done|].
  simpl. by rewrite IH, (flow_writes_same_code d d'), (next_start_same_code d d').
Qed.

Lemma layout_same_code d d' fs off :
  same_code d d' → layout d' fs off = layout d fs off.
Proof.
  intros H. revert off. induction fs as [|[func_ea rfn] fs IH]; intros off; [done|].
  simpl. by rewrite IH, (next_start_same_code d d').
Qed.

Lemma emitted_nil d : emitted d d [].
Proof.
  split; [apply same_code_refl|]. simpl. by rewrite app_nil_r.
Qed.

Lemma emitted_app d1 d2 d3 ws1 ws2 :
  emitted d1 d2 ws1 → emitted d2 d3 ws2 → emitted d1 d3 (ws1 ++ ws2).
Proof.
  intros (Hs1&Hc1&He1&Hg1) (Hs2&Hc2&He2&Hg2). split; [by eapply same_code_trans|].
  split; [congruence|]. split.
  - rewrite He2, He1, map_app. by rewrite app_assoc.
  - rewrite Hg2, Hg1. unfold store_all. by rewrite foldl_app.
Qed.

Ltac run_monad :=
  unfold reloc_set, modify_instr, buffer_assign, emit, py_assert, lift, raise,
    modify, gets, mbind, M_bind, mret, M_ret; simpl.

(** One store into the relocation map. *)
Lemma reloc_set_run k v d :
  ∃ d', reloc_set k v d = (d', Ok tt) ∧ emitted d d' [(k, v)]
        ∧ instrs d' = instrs d ∧ newimgbuffer d' = newimgbuffer d.
Proof. eexists. split; [run_monad; reflexivity|]. repeat split; done. Qed.

(** One instruction: one store, and the cursor advances by the emitted length. *)
Lemma emit_instr_run func_ea off i d :
  ∃ d', emit_instr func_ea off i d = (d', Ok (off + len (ops_of (instrs d i))))
        ∧ emitted d d'
            [((func_ea, ea (instr (instrs d i)), is_boundary_jmp (instrs d i)), off)].
Proof.
  eexists. split; [unfold emit_instr; run_monad; reflexivity|]. split; [|done].
  intros j. simpl. unfold insert, fn_insert.
  destruct (decide (i = j)) as [->|]; done.
Qed.

Lemma emit_flow_run func_ea flow off d :
  ∃ d', emit_flow func_ea flow off d = (d', Ok (off + flow_size d flow))
        ∧ emitted d d' (flow_writes d func_ea flow off).
Proof.
  revert off d. induction flow as [|i flow IH]; intros off d.
  - exists d. simpl. split; [unfold mret, M_ret; f_equal; f_equal; lia|apply emitted_nil].
  - destruct (emit_instr_run func_ea off i d) as (d1&Hrun1&Hem1).
    destruct (IH (off + len (ops_of (instrs d i))) d1) as (d2&Hrun2&Hem2).
    exists d2. split.
    + simpl. unfold mbind, M_bind at 1. rewrite Hrun1, Hrun2.
      fold (flow_size d flow).
      rewrite (flow_size_same_code d d1) by apply Hem1. f_equal. f_equal. lia.
    + rewrite (flow_writes_same_code d d1) in Hem2 by apply Hem1.
      apply (emitted_app _ _ _ [_] _ Hem1 Hem2).
Qed.

Lemma emit_funcs_run fs off d :
  ∃ d', emit_funcs fs off d = (d', Ok (layout d fs off))
        ∧ emitted d d' (emit_writes d fs off).
Proof.
  revert off d. induction fs as [|[func_ea rfn] fs IH]; intros off d.
  - exists d. split; [done|apply emitted_nil].
  - destruct (reloc_set_run (func_ea, func_ea, false) off d) as (d1&Hrun1&Hem1&Hi1&_).
    destruct (emit_flow_run func_ea (normalized_flow rfn) off d1) as (d2&Hrun2&Hem2).
    assert (same_code d d2) as Hs2 by (eapply same_code_trans; [apply Hem1|apply Hem2]).
    destruct (IH (next_start d rfn off) d2) as (d3&Hrun3&Hem3).
    exists d3. split.
    + simpl. unfold mbind, M_bind at 1. rewrite Hrun1.
      unfold mbind, M_bind at 1. rewrite Hrun2.
      rewrite (flow_size_same_code d d1) by apply Hem1.
      fold (next_start d rfn off).
      unfold mbind, M_bind at 1. rewrite Hrun3.
      by rewrite (layout_same_code d d2).
    + rewrite (flow_writes_same_code d d1) in Hem2 by apply Hem1.
      rewrite (emit_writes_same_code d d2) in Hem3 by done.
      simpl.
      apply (emitted_app _ _ _ [_] _ Hem1).
      by apply (emitted_app _ _ _ _ _ Hem2).
Qed.

(** The whole first loop: it cannot raise, assigns the layout and makes
    exactly the stores of [emit_writes]. *)
Lemma emitter_run starting_off d :
  ∃ d', emitter starting_off d = (d', Ok tt)
        ∧ same_code d d'
        ∧ cfg d' = layout d (cfg d) starting_off
        ∧ events d' = events d ++ map reloc_event (emit_writes d (cfg d) starting_off)
        ∧ global_relocs d' = store_all (global_relocs d) (emit_writes d (cfg d) starting_off).
Proof.
  destruct (emit_funcs_run (cfg d) starting_off d) as (d1&Hrun&Hs&Hc&He&Hg).
  eexists. split.
  - unfold emitter, gets. unfold mbind, M_bind at 1.
    unfold mbind, M_bind at 1. rewrite Hrun. reflexivity.
  - simpl. repeat split; try done. all: apply Hs.
Qed.

Lemma emit_writes_keys d fs off :
  map fst (emit_writes d fs off)
  = flat_map (λ f,
      (fst f, fst f, false)
        :: map (λ i, (fst f, ea (instr (instrs d i)), is_boundary_jmp (instrs d i)))
               (normalized_flow (snd f))) fs.
Proof.
  revert off. induction fs as [|[func_ea rfn] fs IH]; intros off; [done|].
  simpl. rewrite map_app, IH. f_equal. f_equal.
  generalize off. induction (normalized_flow rfn) as [|i fl IHf]; intros o; [done|].
  simpl. by rewrite IHf.
Qed.

(** Layout facts. *)
Lemma flow_size_nonneg d flow : 0 ≤ flow_size d flow.
Proof.
  induction flow as [|i fl IHf]; simpl; [lia|].
  fold (flow_size d fl). pose proof (len_nonneg (ops_of (instrs d i))). lia.
Qed.

Lemma layout_aligned d fs off :
  off mod 16 = 0 →
  Forall (λ f, rfn_reloc_ea (snd f) mod 16 = 0) (layout d fs off).
Proof.
  revert off. induction fs as [|[func_ea rfn] fs IH]; intros off Hoff; simpl.
  - constructor.
  - constructor; [done|]. apply IH. apply align_to_16_byte_boundary_mod.
Qed.

Lemma layout_gap d fs off (k : nat) f1 f2 :
  layout d fs off !! k = Some f1 →
  layout d fs off !! S k = Some f2 →
  rfn_reloc_ea (snd f1) + flow_size d (normalized_flow (snd f1)) + 8
    ≤ rfn_reloc_ea (snd f2).
Proof.
  revert off k. induction fs as [|[func_ea rfn] fs IH]; intros off k H1 H2; [done|].
  destruct k as [|k].
  - simpl in H1, H2. injection H1 as <-. simpl.
    destruct fs as [|[func_ea2 rfn2] fs]; [done|].
    simpl in H2. injection H2 as <-. simpl. unfold next_start.
    pose proof (align_to_16_byte_boundary_bounds
                  (off + flow_size d (normalized_flow rfn) + 8)). lia.
  - simpl in H1, H2. by eapply IH.
Qed.

(** ** Computations that leave the relocation map alone *)

Lemma output_no_stores E :
  Forall (λ e, is_output e = true) E → reloc_stores E = [] ∧ fixup_entries E = [].
Proof.
  induction 1 as [|e E He _ [IH1 IH2]]; [done|].
  destruct e; try discriminate; simpl; by rewrite ?IH1, ?IH2.
Qed.

Lemma reloc_stores_app E1 E2 : reloc_stores (E1 ++ E2) = reloc_stores E1 ++ reloc_stores E2.
Proof. unfold reloc_stores. apply flat_map_app. Qed.

Lemma fixup_entries_app E1 E2 : fixup_entries (E1 ++ E2) = fixup_entries E1 ++ fixup_entries E2.
Proof. unfold fixup_entries. apply flat_map_app. Qed.

Lemma reloc_stores_emitted ws :
  reloc_stores (map reloc_event ws) = ws ∧ fixup_entries (map reloc_event ws) = [].
Proof.
  induction ws as [|[k v] ws [IH1 IH2]]; [done|]. simpl. by rewrite IH1, IH2.
Qed.

Lemma quiet_same {A} (m : M A) :
  (∀ d, global_relocs (m d).1 = global_relocs d ∧ cfg (m d).1 = cfg d
        ∧ events (m d).1 = events d) → quiet m.
Proof.
  intros H d. destruct (H d) as (?&?&He). repeat split; try done.
  exists []. rewrite app_nil_r. done.
Qed.

Lemma quiet_ret {A} (a : A) : quiet (mret a : M A).
Proof. by apply quiet_same. Qed.

Lemma quiet_raise {A} e : quiet (raise e : M A).
Proof. by apply quiet_same. Qed.

Lemma quiet_gets {A} (f : ProtectedInput64 → A) : quiet (gets f).
Proof. by apply quiet_same. Qed.

Lemma quiet_lift {A} (r : result A) : quiet (lift r).
Proof. by apply quiet_same. Qed.

Lemma quiet_assert b : quiet (py_assert b).
Proof. destruct b; by apply quiet_same. Qed.

Lemma quiet_modify_instr i f : quiet (modify_instr i f).
Proof. by apply quiet_same. Qed.

Lemma quiet_buffer_assign lo hi new : quiet (buffer_assign lo hi new).
Proof. by apply quiet_same. Qed.

Lemma quiet_emit e : is_output e = true → quiet (emit e).
Proof.
  intros He d. repeat split; try done. exists [e]. split; [done|].
  by constructor.
Qed.

Lemma quiet_bind {A B} (m : M A) (f : A → M B) :
  quiet m → (∀ a, quiet (f a)) → quiet (m ≫= f).
Proof.
  intros Hm Hf d. unfold mbind, M_bind. specialize (Hm d).
  destruct (m d) as [d1 [a|e]]; simpl in *; [|done].
  destruct Hm as (Hg&Hc&E1&He1&HF1). destruct (Hf a d1) as (Hg2&Hc2&E2&He2&HF2).
  split; [congruence|]. split; [congruence|].
  exists (E1 ++ E2). split; [by rewrite He2, He1, app_assoc|by apply Forall_app].
Qed.

Lemma quiet_for_each {A} (body : A → M unit) l :
  (∀ x, quiet (body x)) → quiet (for_each body l).
Proof.
  intros Hb. induction l as [|x l IH]; simpl; [apply quiet_ret|].
  apply quiet_bind; [apply Hb|done].
Qed.

Lemma quiet_try_print m : quiet m → quiet (try_print m).
Proof.
  intros Hm d. unfold try_print. specialize (Hm d).
  destruct (m d) as [d1 [a|e]]; simpl in *; [done|].
  destruct Hm as (Hg&Hc&E1&He1&HF1).
  split; [done|]. split; [done|].
  exists (E1 ++ [EvPrint (MsgExn e)]). split; [by rewrite He1, app_assoc|].
  apply Forall_app. split; [done|by constructor].
Qed.

Ltac quiet_step :=
  first
    [ apply quiet_ret | apply quiet_raise | apply quiet_gets | apply quiet_lift
    | apply quiet_assert | apply quiet_modify_instr | apply quiet_buffer_assign
    | apply quiet_emit; reflexivity
    | apply quiet_bind; [|intros ?]
    | apply quiet_for_each; intros ?
    | apply quiet_same; done
    | match goal with
      | |- quiet (if ?b then _ else _) => destruct b
      | |- quiet (match ?x with _ => _ end) => destruct x
      end ].

Ltac quiet_solve := repeat quiet_step.

Lemma quiet_resolve_disp_fixup_and_apply i dest : quiet (resolve_disp_fixup_and_apply i dest).
Proof. unfold resolve_disp_fixup_and_apply. quiet_solve. Qed.

Lemma quiet_resolve_imm_fixup_and_apply i dest : quiet (resolve_imm_fixup_and_apply i dest).
Proof. unfold resolve_imm_fixup_and_apply. quiet_solve. Qed.

Lemma quiet_update_reloc_in_img i tag : quiet (update_reloc_in_img i tag).
Proof. unfold update_reloc_in_img. quiet_solve. Qed.

Lemma quiet_reloc_import i : quiet (reloc_import i).
Proof.
  unfold reloc_import. quiet_solve.
  all: first [apply quiet_resolve_disp_fixup_and_apply | apply quiet_update_reloc_in_img].
Qed.

Lemma quiet_lookup_reloc k tag : quiet (lookup_reloc k tag).
Proof. unfold lookup_reloc. quiet_solve. Qed.

Lemma quiet_reloc_ctrlflow rfn i : quiet (reloc_ctrlflow rfn i).
Proof.
  unfold reloc_ctrlflow. quiet_solve.
  all: first [apply quiet_lookup_reloc | apply quiet_resolve_imm_fixup_and_apply
             | apply quiet_update_reloc_in_img].
Qed.

Lemma quiet_dataflow_dest r : quiet (dataflow_dest r).
Proof. unfold dataflow_dest. quiet_solve. Qed.

Lemma quiet_reloc_dataflow i : quiet (reloc_dataflow i).
Proof.
  unfold reloc_dataflow. quiet_solve.
  all: first [apply quiet_dataflow_dest | apply quiet_resolve_disp_fixup_and_apply
             | apply quiet_update_reloc_in_img].
Qed.

Lemma quiet_preserve_original_imports : quiet preserve_original_imports.
Proof.
  unfold preserve_original_imports.
  apply quiet_bind; [apply quiet_gets|]. intros sites.
  apply quiet_for_each. intros [instr_ea [name instr_size]].
  unfold preserve_one. quiet_solve.
Qed.

(** One function's fixups: the entry event, then output only. *)
Lemma apply_all_fixups_to_rfn_events rfn d :
  let d' := (apply_all_fixups_to_rfn rfn d).1 in
  global_relocs d' = global_relocs d ∧ cfg d' = cfg d
  ∧ ∃ E, events d' = events d ++ EvFixups (rfn_func_start_ea rfn) :: E
         ∧ Forall (λ e, is_output e = true) E.
Proof.
  assert (quiet (for_each reloc_import (relocs_imports rfn) ;;
                 for_each (reloc_ctrlflow rfn) (relocs_ctrlflow rfn) ;;
                 for_each reloc_dataflow (relocs_dataflow rfn))) as Hq.
  { quiet_solve.
    all: first [apply quiet_reloc_import | apply quiet_reloc_ctrlflow
               | apply quiet_reloc_dataflow]. }
  intros d'. subst d'. unfold apply_all_fixups_to_rfn.
  match goal with
  | |- context [((emit ?e ;; ?m) d).1] =>
      change ((emit e ;; m) d) with (m (set_events (events d ++ [e]) d));
      destruct (Hq (set_events (events d ++ [e]) d)) as (Hg&Hc&E&He&HF)
  end.
  split; [done|]. split; [done|]. exists E.
  split; [|done]. rewrite He. simpl. by rewrite <- app_assoc.
Qed.

(** The second loop of [build_relocations] over the functions [fs]: it
    swallows every exception, enters the fixups of each function once and in
    order, and makes no store into the relocation map. *)
Lemma fixups_loop_events (fs : list (Z * RecoveredFunc)) d :
  ∃ d', for_each (λ f, try_print (apply_all_fixups_to_rfn (snd f))) fs d = (d', Ok tt)
        ∧ global_relocs d' = global_relocs d ∧ cfg d' = cfg d
        ∧ ∃ E, events d' = events d ++ E
               ∧ reloc_stores E = []
               ∧ fixup_entries E = map (λ f, rfn_func_start_ea (snd f)) fs.
Proof.
  revert d. induction fs as [|f fs IH]; intros d.
  - exists d. repeat split; try done. exists []. by rewrite app_nil_r.
  - simpl for_each. unfold mbind, M_bind, try_print.
    pose proof (apply_all_fixups_to_rfn_events (snd f) d) as H. simpl in H.
    destruct (apply_all_fixups_to_rfn (snd f) d) as [d1 [[]|e]]; simpl in H;
      destruct H as (Hg&Hc&E&He&HF); destruct (output_no_stores _ HF) as [Hs Hf].
    + destruct (IH d1) as (d2&Hr&Hg2&Hc2&E2&He2&Hs2&Hf2).
      exists d2. split; [done|]. split; [congruence|]. split; [congruence|].
      exists ((EvFixups (rfn_func_start_ea (snd f)) :: E) ++ E2).
      split; [by rewrite He2, He, app_assoc|].
      rewrite reloc_stores_app, fixup_entries_app. simpl.
      by rewrite Hs, Hs2, Hf, Hf2.
    + destruct (IH (set_events (events d1 ++ [EvPrint (MsgExn e)]) d1))
        as (d2&Hr&Hg2&Hc2&E2&He2&Hs2&Hf2).
      exists d2. split; [done|]. split; [by rewrite Hg2|]. split; [by rewrite Hc2|].
      exists ((EvFixups (rfn_func_start_ea (snd f)) :: E) ++ [EvPrint (MsgExn e)] ++ E2).
      split; [rewrite He2; simpl; rewrite He; by rewrite <- !app_assoc|].
      rewrite !reloc_stores_app, !fixup_entries_app. simpl.
      by rewrite Hs, Hs2, Hf, Hf2.
Qed.

(** ** The fixup steps *)

Lemma keeps_buffer_same {A} (m : M A) :
  (∀ d, newimgbuffer (m d).1 = newimgbuffer d) → keeps_buffer m.
Proof. done. Qed.

Lemma keeps_buffer_bind {A B} (m : M A) (f : A → M B) :
  keeps_buffer m → (∀ a, keeps_buffer (f a)) → keeps_buffer (m ≫= f).
Proof.
  intros Hm Hf d. unfold mbind, M_bind. specialize (Hm d).
  destruct (m d) as [d1 [a|e]]; simpl in *; [|done].
  by rewrite Hf.
Qed.

Lemma keeps_buffer_assert b : keeps_buffer (py_assert b).
Proof. by destruct b. Qed.

Ltac keeps_step :=
  first
    [ apply keeps_buffer_bind; [|intros ?]
    | apply keeps_buffer_assert
    | match goal with
      | |- keeps_buffer (if ?b then _ else _) => destruct b
      | |- keeps_buffer (match ?x with _ => _ end) => destruct x
      end
    | apply keeps_buffer_same; done ].

Ltac keeps_solve := repeat keeps_step.

Lemma keeps_buffer_resolve_disp i dest : keeps_buffer (resolve_disp_fixup_and_apply i dest).
Proof. unfold resolve_disp_fixup_and_apply. keeps_solve. Qed.

Lemma keeps_buffer_resolve_imm i dest : keeps_buffer (resolve_imm_fixup_and_apply i dest).
Proof. unfold resolve_imm_fixup_and_apply. keeps_solve. Qed.

Lemma keeps_buffer_lookup_reloc k tag : keeps_buffer (lookup_reloc k tag).
Proof. unfold lookup_reloc. keeps_solve. Qed.

Lemma keeps_buffer_dataflow_dest r : keeps_buffer (dataflow_dest r).
Proof. unfold dataflow_dest. keeps_solve. Qed.

Lemma bind_ok {A B} (m : M A) (f : A → M B) d d1 a :
  m d = (d1, Ok a) → (m ≫= f) d = f a d1.
Proof. intros H. unfold mbind, M_bind. by rewrite H. Qed.

Lemma bind_raise {A B} (m : M A) (f : A → M B) d d1 e :
  m d = (d1, Raise e) → (m ≫= f) d = (d1, Raise e).
Proof. intros H. unfold mbind, M_bind. by rewrite H. Qed.

(** [update_reloc_in_img] records the decoded instruction and changes nothing
    else of any instruction object. *)
Lemma update_reloc_in_img_instr i tag d j :
  let r' := instrs (update_reloc_in_img i tag d).1 j in
  updated_bytes r' = updated_bytes (instrs d j)
  ∧ reloc_ea r' = reloc_ea (instrs d j)
  ∧ instr r' = instr (instrs d j).
Proof.
  unfold update_reloc_in_img. run_monad.
  destruct (md_decode_buffer _ _) as [ri|]; simpl.
  - destruct (bool_decide _); simpl; unfold insert, fn_insert;
      destruct (decide (i = j)) as [->|]; done.
  - unfold insert, fn_insert; destruct (decide (i = j)) as [->|]; done.
Qed.

(** ** What the patches write *)

Lemma resolve_disp_fixup_and_apply_run i dest d :
  let r := instrs d i in
  disp_size (instr r) = 4 →
  resolve_disp_fixup_and_apply i (Some dest) d
  = (set_instrs
       (<[i := set_updated_bytes
                 (slice_assign (updated_bytes r) (disp_offset (instr r))
                    (disp_offset (instr r) + 4)
                    (le32 ((dest - (reloc_ea r + size (instr r))) mod 2 ^ 32))) r]>
          (instrs d)) d, Ok tt).
Proof.
  intros r Hsz. subst r. unfold resolve_disp_fixup_and_apply, CALC_FIXUP.
  run_monad. rewrite Hsz. simpl. rewrite PACK_FIXUP_masked. done.
Qed.

Lemma reloc_dataflow_patch i d t :
  let r := instrs d i in
  dataflow_target d r t → disp_size (instr r) = 4 →
  updated_bytes (instrs (reloc_dataflow i d).1 i)
  = slice_assign (bytes (instr r)) (disp_offset (instr r)) (disp_offset (instr r) + 4)
      (le32 ((t - (reloc_ea r + size (instr r))) mod 2 ^ 32)).
Proof.
  intros r Ht Hsz. subst r. unfold reloc_dataflow.
  run_monad.
  unfold dataflow_target, IS_IN_DATA in Ht.
  destruct (bool_decide (id (instr (instrs d i)) ∈ KNOWN)); simpl.
  all: unfold dataflow_dest, IS_IN_DATA; run_monad.
  all: destruct (data_range_rva d _); simpl;
         [subst t|destruct Ht as [Ht Hne]; rewrite Ht;
                  rewrite (proj2 (Z.eqb_neq t 0) Hne)].
  all: rewrite resolve_disp_fixup_and_apply_run by (simpl; rewrite fn_lookup_insert; done).
  all: match goal with
       | |- context [update_reloc_in_img ?j ?tag ?s] =>
           destruct (update_reloc_in_img_instr j tag s j) as (Hu&_)
       end.
  all: rewrite Hu; simpl; rewrite !fn_lookup_insert; done.
Qed.

Lemma reloc_import_patch i d t :
  let r := instrs d i in
  is_boundary_jmp r = false → import_target d r t → disp_size (instr r) = 4 →
  updated_bytes (instrs (reloc_import i d).1 i)
  = slice_assign (bytes (instr r)) (disp_offset (instr r)) (disp_offset (instr r) + 4)
      (le32 ((t - (reloc_ea r + size (instr r))) mod 2 ^ 32)).
Proof.
  intros r Hb (e&Hi&Hr) Hsz. subst r. unfold reloc_import.
  run_monad. rewrite Hb. simpl. rewrite Hi. simpl. rewrite Hr.
  destruct (truthy (Some t)); simpl.
  all: rewrite resolve_disp_fixup_and_apply_run by (simpl; rewrite fn_lookup_insert; done).
  all: match goal with
       | |- context [update_reloc_in_img ?j ?tag ?s] =>
           destruct (update_reloc_in_img_instr j tag s j) as (Hu&_);
           destruct (update_reloc_in_img j tag s) as [d2 [[]|x]]
       end.
  all: simpl in *; rewrite Hu; rewrite !fn_lookup_insert; done.
Qed.

Lemma lookup_reloc_run k tag d t :
  global_relocs d !! k = Some t → t ≠ 0 → lookup_reloc k tag d = (d, Ok t).
Proof.
  intros Hk Hne. unfold lookup_reloc. run_monad. rewrite Hk. simpl.
  by rewrite (proj2 (Z.eqb_neq t 0) Hne).
Qed.

Lemma reloc_ctrlflow_jmp_patch rfn i d t :
  let r := instrs d i in
  is_obf_import r = false → is_call (instr r) = false →
  is_jmp (instr r) = true → len (updated_bytes r) = 5 →
  global_relocs d !! (rfn_func_start_ea rfn, op1_imm (instr r), false) = Some t →
  t ≠ 0 → t ≠ -1 →
  updated_bytes (instrs (reloc_ctrlflow rfn i d).1 i)
  = slice_assign (updated_bytes r) 1 5 (le32 ((t - (reloc_ea r + 5)) mod 2 ^ 32)).
Proof.
  intros r Ho Hc Hj Hl Hk Hne Hne1. subst r. unfold reloc_ctrlflow.
  unfold mbind at 1, M_bind at 1, gets at 1. rewrite Ho, Hc.
  rewrite (bind_ok _ _ _ _ _ (lookup_reloc_run _ _ _ _ Hk Hne)).
  unfold resolve_imm_fixup_and_apply, CALC_FIXUP. run_monad.
  rewrite (proj2 (Z.eqb_neq t (-1)) Hne1). simpl.
  rewrite Hc, Hj. rewrite orb_true_r. simpl. rewrite Hl. simpl.
  rewrite PACK_FIXUP_masked.
  match goal with
  | |- context [update_reloc_in_img ?j ?tag ?s] =>
      destruct (update_reloc_in_img_instr j tag s j) as (Hu&_)
  end.
  rewrite Hu. simpl. rewrite !fn_lookup_insert. done.
Qed.

Lemma reloc_ctrlflow_jcc_patch rfn i d t :
  let r := instrs d i in
  is_obf_import r = false → is_call (instr r) = false → is_jmp (instr r) = false →
  is_jcc (instr r) = true → len (updated_bytes r) = 6 →
  global_relocs d !! (rfn_func_start_ea rfn, op1_imm (instr r), false) = Some t →
  t ≠ 0 → t ≠ -1 →
  updated_bytes (instrs (reloc_ctrlflow rfn i d).1 i)
  = slice_assign (updated_bytes r) 2 6 (le32 ((t - (reloc_ea r + 6)) mod 2 ^ 32)).
Proof.
  intros r Ho Hc Hm Hj Hl Hk Hne Hne1. subst r. unfold reloc_ctrlflow.
  unfold mbind at 1, M_bind at 1, gets at 1. rewrite Ho, Hc.
  rewrite (bind_ok _ _ _ _ _ (lookup_reloc_run _ _ _ _ Hk Hne)).
  unfold resolve_imm_fixup_and_apply, CALC_FIXUP. run_monad.
  rewrite (proj2 (Z.eqb_neq t (-1)) Hne1). simpl.
  rewrite Hc, Hj, Hm. simpl. rewrite Hl. simpl.
  rewrite PACK_FIXUP_masked.
  match goal with
  | |- context [update_reloc_in_img ?j ?tag ?s] =>
      destruct (update_reloc_in_img_instr j tag s j) as (Hu&_)
  end.
  rewrite Hu. simpl. rewrite !fn_lookup_insert. done.
Qed.

(** A slice that ends at the end of the sequence: its tail is replaced. *)
Lemma slice_assign_tail4 bs n v :
  len bs = n → 4 ≤ n →
  slice_assign bs (n - 4) n (le32 v) = take (Z.to_nat (n - 4)) bs ++ le32 v.
Proof.
  intros Hl Hn. replace n with ((n - 4) + len (le32 v)) at 2 by (rewrite len_le32; lia).
  rewrite slice_assign_inside by (rewrite ?len_le32; lia).
  rewrite len_le32. replace (n - 4 + 4) with n by lia.
  rewrite drop_ge by (unfold len in Hl; lia). by rewrite app_nil_r.
Qed.

Lemma keeps_addr_same {A} (m : M A) :
  (∀ d, instrs (m d).1 = instrs d) → keeps_addr m.
Proof. intros H d j. by rewrite H. Qed.

Lemma keeps_addr_bind {A B} (m : M A) (f : A → M B) :
  keeps_addr m → (∀ a, keeps_addr (f a)) → keeps_addr (m ≫= f).
Proof.
  intros Hm Hf d j. unfold mbind, M_bind. specialize (Hm d j).
  destruct (m d) as [d1 [a|e]]; simpl in *; [|done].
  destruct (Hf a d1 j) as [-> ->]. done.
Qed.

Lemma keeps_addr_modify_instr i f :
  (∀ r, reloc_ea (f r) = reloc_ea r ∧ instr (f r) = instr r) →
  keeps_addr (modify_instr i f).
Proof.
  intros Hf d j. unfold modify_instr, modify. simpl. unfold insert, fn_insert.
  destruct (decide (i = j)) as [->|]; [apply Hf|done].
Qed.

Lemma keeps_addr_assert b : keeps_addr (py_assert b).
Proof. destruct b; by apply keeps_addr_same. Qed.

Ltac addr_step :=
  first
    [ apply keeps_addr_bind; [|intros ?]
    | apply keeps_addr_assert
    | apply keeps_addr_modify_instr; done
    | match goal with
      | |- keeps_addr (if ?b then _ else _) => destruct b
      | |- keeps_addr (match ?x with _ => _ end) => destruct x
      end
    | apply keeps_addr_same; done ].

Lemma keeps_addr_reloc_dataflow i : keeps_addr (reloc_dataflow i).
Proof.
  unfold reloc_dataflow, dataflow_dest, resolve_disp_fixup_and_apply,
    update_reloc_in_img.
  repeat addr_step.
Qed.

(** C2 (amended). A jump or conditional jump that is not resolved as an
    import has its target resolved through the relocation map under the key
    (start address of the function being fixed up, target address, [false]):
    the flag of the key is always [false], whatever the instruction's own
    [is_boundary_jmp].  With a placeholder of 5 bytes for [jmp] and 6 for
    [jcc], only the last 4 bytes are replaced, by the little-endian
    [(resolved - (relocated address + placeholder length)) mod 2^32]. *)
Theorem jump_fixup_patches_last_four_bytes rfn i d t :
  let r := instrs d i in
  let n := len (updated_bytes r) in
  is_obf_import r = false →
  is_call (instr r) = false →
  (is_jmp (instr r) = true ∧ n = 5)
  ∨ (is_jmp (instr r) = false ∧ is_jcc (instr r) = true ∧ n = 6) →
  global_relocs d !! (rfn_func_start_ea rfn, op1_imm (instr r), false) = Some t →
  t ≠ 0 → t ≠ -1 →
  updated_bytes (instrs (reloc_ctrlflow rfn i d).1 i)
  = take (Z.to_nat (n - 4)) (updated_bytes r)
    ++ le32 ((t - (reloc_ea r + n)) mod 2 ^ 32).
Proof.
  intros r n Ho Hc [[Hj Hn]|(Hm&Hj&Hn)] Hk Hne Hne1; subst r n.
  - rewrite (reloc_ctrlflow_jmp_patch rfn i d t) by done.
    rewrite Hn. by apply (slice_assign_tail4 _ 5).
  - rewrite (reloc_ctrlflow_jcc_patch rfn i d t) by done.
    rewrite Hn. by apply (slice_assign_tail4 _ 6).
Qed.

Lemma dataflow_dest_in_data r d :
  IS_IN_DATA d (disp_dest (instr r)) = true →
  dataflow_dest r d = (d, Ok (disp_dest (instr r))).
Proof. intros H. unfold dataflow_dest. run_monad. by rewrite H. Qed.

(** C3. A data-flow instruction whose rip-relative destination [D] lies in
    the data region is fixed up towards [D] itself, whatever the relocation
    map holds; the patched displacement, read back at the relocated address,
    designates [D] again. *)
Theorem dataflow_data_reference_keeps_target i d :
  let r := instrs d i in
  let D := disp_dest (instr r) in
  let off := disp_offset (instr r) in
  IS_IN_DATA d D = true →
  disp_size (instr r) = 4 →
  0 ≤ off → off + 4 ≤ len (bytes (instr r)) →
  - 2 ^ 31 ≤ D - (reloc_ea r + size (instr r)) < 2 ^ 31 →
  (∀ g, dataflow_dest r (set_global_relocs g d) = (set_global_relocs g d, Ok D))
  ∧ (∀ g, updated_bytes (instrs (reloc_dataflow i (set_global_relocs g d)).1 i)
          = with_disp32 (bytes (instr r)) off
              ((D - (reloc_ea r + size (instr r))) mod 2 ^ 32))
  ∧ rip_target (instrs (reloc_dataflow i d).1 i) = D.
Proof.
  intros r D off Hin Hsz Ho Hl Hreach. subst r D off.
  assert (∀ g, updated_bytes (instrs (reloc_dataflow i (set_global_relocs g d)).1 i)
          = with_disp32 (bytes (instr (instrs d i))) (disp_offset (instr (instrs d i)))
              ((disp_dest (instr (instrs d i))
                - (reloc_ea (instrs d i) + size (instr (instrs d i)))) mod 2 ^ 32))
    as Hpatch.
  { intros g.
    rewrite (reloc_dataflow_patch i (set_global_relocs g d)
               (disp_dest (instr (instrs d i)))).
    - simpl. by apply slice_assign_disp32.
    - unfold dataflow_target, IS_IN_DATA in *. simpl. by rewrite Hin.
    - done. }
  split; [intros g; by apply dataflow_dest_in_data|]. split; [done|].
  unfold rip_target.
  destruct (keeps_addr_reloc_dataflow i d i) as [-> ->].
  assert (set_global_relocs (global_relocs d) d = d) as Hid by (by destruct d).
  specialize (Hpatch (global_relocs d)). rewrite Hid in Hpatch. rewrite Hpatch.
  rewrite read_le32_with_disp32; [|done|done|apply Z.mod_pos_bound; lia].
  rewrite signed32_mod by done. lia.
Qed.

(** C4. An import fixup and a data-flow fixup of an instruction with a 4-byte
    displacement leave the original instruction bytes except the 4 bytes from
    the recorded displacement offset on, which become the little-endian
    [(resolved - (relocated address + original instruction length)) mod 2^32]. *)
Theorem disp32_fixup_replaces_only_displacement i d t (step : M unit) :
  let r := instrs d i in
  let off := disp_offset (instr r) in
  let v := (t - (reloc_ea r + size (instr r))) mod 2 ^ 32 in
  (step = reloc_import i ∧ is_boundary_jmp r = false ∧ import_target d r t)
  ∨ (step = reloc_dataflow i ∧ dataflow_target d r t) →
  disp_size (instr r) = 4 →
  0 ≤ off → off + 4 ≤ len (bytes (instr r)) →
  let patched := updated_bytes (instrs (step d).1 i) in
  patched = with_disp32 (bytes (instr r)) off v
  ∧ length patched = length (bytes (instr r))
  ∧ (∀ k : nat, (k < 4)%nat → patched !! (Z.to_nat off + k)%nat = le32 v !! k)
  ∧ (∀ j : nat, Z.of_nat j < off ∨ off + 4 ≤ Z.of_nat j →
                patched !! j = bytes (instr r) !! j).
Proof.
  intros r off v Hstep Hsz Ho Hl patched.
  assert (patched = with_disp32 (bytes (instr r)) off v) as ->.
  { subst patched r off v.
    destruct Hstep as [(->&Hb&Ht)|(->&Ht)].
    - rewrite (reloc_import_patch i d t) by done. by apply slice_assign_disp32.
    - rewrite (reloc_dataflow_patch i d t) by done. by apply slice_assign_disp32. }
  split; [done|]. split; [by apply with_disp32_length|].
  split; [intros k Hk; by apply with_disp32_lookup_field|].
  intros j [Hj|Hj]; [by apply with_disp32_lookup_before|by apply with_disp32_lookup_after].
Qed.

(** C8 (amended). For an import reference that is not a synthetic boundary
    instruction: when its address has no entry in the imports table the step
    prompts the operator and skips the instruction, without a fault and
    without touching the output buffer; when it has an entry whose symbol has
    no new RVA in the import-to-RVA map the step raises a fault and the output
    buffer is left as it was. *)
Theorem import_fixup_missing_metadata i d :
  let r := instrs d i in
  is_boundary_jmp r = false →
  (imports d !! ea (instr r) = None →
     (reloc_import i d).2 = Ok tt
     ∧ events (reloc_import i d).1 = events d ++ [EvInput (MsgNoImpEntry i)]
     ∧ newimgbuffer (reloc_import i d).1 = newimgbuffer d)
  ∧ (∀ e, imports d !! ea (instr r) = Some (Imp e) →
          import_to_rva_map d !! api_name e = None →
     (reloc_import i d).2
       = Raise (if disp_size (instr r) =? 4 then TypeError else AssertionError)
     ∧ newimgbuffer (reloc_import i d).1 = newimgbuffer d).
Proof.
  intros r Hb. subst r. split.
  - intros Hi. unfold reloc_import. run_monad. rewrite Hb. simpl. by rewrite Hi.
  - intros e Hi Hr. unfold reloc_import, resolve_disp_fixup_and_apply. run_monad.
    rewrite Hb. simpl. rewrite Hi. simpl. rewrite Hr. simpl.
    rewrite fn_lookup_insert. simpl.
    by destruct (disp_size (instr (instrs d i)) =? 4).
Qed.

(** ** [rebuild_output] and the import preservation pass *)

Lemma starts_with_len sub buf : starts_with sub buf = true → len sub ≤ len buf.
Proof.
  revert buf. induction sub as [|x sub IH]; intros buf H.
  - unfold len. simpl. lia.
  - destruct buf as [|y buf]; [done|]. simpl in H.
    apply andb_true_iff in H as [_ H]. apply IH in H. unfold len in *. simpl. lia.
Qed.

Lemma find_from_found sub suffix k i :
  0 ≤ k → find_from sub suffix k = i → i ≠ -1 →
  k ≤ i ∧ i + len sub ≤ k + len suffix
  ∧ starts_with sub (drop (Z.to_nat (i - k)) suffix) = true.
Proof.
  revert k. induction suffix as [|y suffix IH]; intros k Hk Hf Hi; simpl in Hf.
  - destruct (starts_with sub []) eqn:Hs; [|congruence]. subst i.
    replace (k - k) with 0 by lia. simpl.
    apply starts_with_len in Hs as Hl. split; [lia|]. split; [lia|done].
  - destruct (starts_with sub (y :: suffix)) eqn:Hs.
    + subst i. replace (k - k) with 0 by lia. simpl.
      apply starts_with_len in Hs as Hl. split; [lia|]. split; [lia|done].
    + destruct (IH (k + 1) ltac:(lia) Hf Hi) as (H1&H2&H3).
      split; [lia|]. split; [unfold len in *; simpl; lia|].
      replace (Z.to_nat (i - k)) with (S (Z.to_nat (i - (k + 1)))) by lia. done.
Qed.

(** [buf.find(sub, start)] with a start inside the buffer: a result other
    than [-1] is an offset at or after [start] where [sub] occurs in full. *)
Lemma py_find_found buf sub start i :
  0 ≤ start → py_find buf sub start = i → i ≠ -1 →
  start ≤ i ∧ i + len sub ≤ len buf
  ∧ starts_with sub (drop (Z.to_nat i) buf) = true.
Proof.
  intros Hs Hf Hi. unfold py_find in Hf.
  destruct (start <? 0) eqn:E; [apply Z.ltb_lt in E; lia|].
  destruct (len buf <? start) eqn:E2; [congruence|]. apply Z.ltb_ge in E2.
  destruct (find_from_found _ _ _ _ Hs Hf Hi) as (H1&H2&H3).
  split; [done|]. split.
  - unfold len in *. rewrite length_drop in H2. lia.
  - rewrite drop_drop in H3.
    replace (Z.to_nat start + Z.to_nat (i - start))%nat with (Z.to_nat i) in H3 by lia.
    done.
Qed.

Lemma zero_range_length buf lo hi :
  0 ≤ lo ≤ hi → hi ≤ len buf → length (zero_range buf lo hi) = length buf.
Proof.
  intros. unfold zero_range, len in *.
  rewrite !length_app, length_take, length_replicate, length_drop. lia.
Qed.

Lemma zero_range_lookup_inside buf lo hi (j : nat) :
  0 ≤ lo → hi ≤ len buf → lo ≤ Z.of_nat j < hi →
  zero_range buf lo hi !! j = Some 0.
Proof.
  intros. unfold zero_range, len in *.
  rewrite lookup_app_r by (rewrite length_take; lia).
  rewrite lookup_app_l by (rewrite length_take, length_replicate; lia).
  apply lookup_replicate_2. rewrite length_take. lia.
Qed.

Lemma zero_range_lookup_outside buf lo hi (j : nat) :
  0 ≤ lo ≤ hi → hi ≤ len buf → Z.of_nat j < lo ∨ hi ≤ Z.of_nat j →
  zero_range buf lo hi !! j = buf !! j.
Proof.
  intros Hlo Hhi [Hj|Hj]; unfold zero_range, len in *.
  - rewrite lookup_app_l by (rewrite length_take; lia).
    apply lookup_take_lt. lia.
  - rewrite lookup_app_r by (rewrite length_take; lia).
    rewrite lookup_app_r by (rewrite length_take, length_replicate; lia).
    rewrite lookup_drop, length_take, length_replicate. f_equal. lia.
Qed.

Lemma clear_protected_region_found d i :
  0 ≤ selective_func_rva d →
  py_find (newimgbuffer d) END_MARKER (selective_func_rva d) = i → i ≠ -1 →
  clear_protected_region d
  = (set_newimgbuffer (zero_range (newimgbuffer d) (selective_func_rva d) (i + 14)) d,
     Ok tt).
Proof.
  intros Hs Hf Hi.
  destruct (py_find_found _ _ _ _ Hs Hf Hi) as (H1&H2&_).
  change (len END_MARKER) with 14 in H2.
  unfold clear_protected_region. run_monad. rewrite Hf.
  rewrite (proj2 (Z.eqb_neq i (-1)) Hi).
  change (len END_MARKER) with 14.
  destruct (i + 14 - selective_func_rva d <? 0) eqn:E; [apply Z.ltb_lt in E; lia|].
  simpl. f_equal. f_equal.
  set (zs := replicate (Z.to_nat (i + 14 - selective_func_rva d)) 0).
  assert (len zs = i + 14 - selective_func_rva d) as Hz.
  { unfold zs, len. rewrite length_replicate. lia. }
  replace (i + 14) with (selective_func_rva d + len zs) at 1 by lia.
  rewrite slice_assign_inside by lia.
  unfold zero_range. fold zs. do 3 f_equal. lia.
Qed.

(** The sentinel scan reports nothing: with or without a sentinel the block
    produces no event. *)
Lemma clear_protected_region_silent d :
  events (clear_protected_region d).1 = events d.
Proof.
  unfold clear_protected_region. run_monad.
  by destruct (_ <? 0).
Qed.

(** Without a sentinel the end of the cleared region is the constant
    [0x15311] plus the length of the sentinel. *)
Lemma clear_protected_region_fallback d :
  py_find (newimgbuffer d) END_MARKER (selective_func_rva d) = -1 →
  selective_func_rva d ≤ 0x15311 + 14 →
  clear_protected_region d
  = (set_newimgbuffer
       (slice_assign (newimgbuffer d) (selective_func_rva d) (0x15311 + 14)
          (replicate (Z.to_nat (0x15311 + 14 - selective_func_rva d)) 0)) d,
     Ok tt).
Proof.
  intros Hf Hs. unfold clear_protected_region. run_monad. rewrite Hf. simpl.
  change (len END_MARKER) with 14.
  destruct (86801 + 14 - selective_func_rva d <? 0) eqn:E; [apply Z.ltb_lt in E; lia|].
  done.
Qed.

(** C9 (amended). In SELECTIVE mode, when the end sentinel is found at an
    offset [i] at or after the start of the selected function, the bytes
    zero-filled are exactly those from the start of the selected function
    ([d.selective_func_rva]) through the last byte of the sentinel; every
    other byte of the template buffer is left as it was by this step. *)
Theorem selective_clear_zero_fills_from_function_start d i :
  let sel := selective_func_rva d in
  let template := fst (build_memory_image_with_imports d false) in
  let buf' := newimgbuffer (prepare_output d).1 in
  protection_type d = SELECTIVE → cfg d ≠ [] →
  0 ≤ sel → py_find template END_MARKER sel = i → i ≠ -1 →
  sel ≤ i ∧ i + 14 ≤ len template
  ∧ buf' = zero_range template sel (i + 14)
  ∧ length buf' = length template
  ∧ (∀ j : nat, sel ≤ Z.of_nat j < i + 14 → buf' !! j = Some 0)
  ∧ (∀ j : nat, Z.of_nat j < sel ∨ i + 14 ≤ Z.of_nat j → buf' !! j = template !! j).
Proof.
  intros sel template buf' Hty Hcfg Hs Hf Hi.
  destruct (py_find_found _ _ _ _ Hs Hf Hi) as (H1&H2&_).
  change (len END_MARKER) with 14 in H2.
  assert (buf' = zero_range template sel (i + 14)) as ->.
  { subst buf' sel template. unfold prepare_output. run_monad.
    destruct (cfg d) as [|f fs]; [done|]. simpl. rewrite Hty. simpl.
    destruct (selective_func_rva d =? -1) eqn:E; [apply Z.eqb_eq in E; lia|]. simpl.
    unfold install_template. run_monad.
    match goal with
    | |- context [clear_protected_region ?s] =>
        rewrite (clear_protected_region_found s i) by done
    end. done. }
  split; [done|]. split; [done|]. split; [done|].
  split; [apply zero_range_length; lia|].
  split; [intros j Hj; apply zero_range_lookup_inside; lia|].
  intros j Hj. apply zero_range_lookup_outside; lia.
Qed.

(** The offset handed to [build_relocations] is the local [func_rva], which
    no branch assigns: SELECTIVE stores the selected address in the attribute
    [d.func_rva] instead. *)
Lemma prepare_output_func_rva d v : (prepare_output d).2 = Ok v → v = 0x1000.
Proof.
  unfold prepare_output, install_template. run_monad.
  destruct (negb _); simpl; [|done].
  destruct (protection_type d); simpl.
  - congruence.
  - destruct (negb _); simpl; [|done].
    destruct (clear_protected_region _) as [d1 [[]|e]]; simpl; congruence.
  - congruence.
Qed.

(** One call site of the preservation pass whose symbol has an RVA. *)
Lemma preserve_one_patch instr_ea name instr_size d v :
  import_to_rva_map d !! name = Some v →
  (preserve_one (instr_ea, (name, instr_size)) d).2 = Ok tt
  ∧ newimgbuffer (preserve_one (instr_ea, (name, instr_size)) d).1
    = slice_assign (newimgbuffer d) (instr_ea + 2) (instr_ea + 6)
        (le32 ((v - (instr_ea + instr_size)) mod 2 ^ 32)).
Proof.
  intros Hv. unfold preserve_one. run_monad. rewrite Hv.
  destruct (truthy (Some v)); simpl; rewrite PACK_FIXUP_masked; done.
Qed.

(** One call site whose symbol has no RVA: the miss is logged and the
    subtraction on [None] raises. *)
Lemma preserve_one_missing instr_ea name instr_size d :
  import_to_rva_map d !! name = None →
  preserve_one (instr_ea, (name, instr_size)) d
  = (set_events (events d ++ [EvLogInfo (MsgPreserving instr_ea name)]) d,
     Raise TypeError).
Proof. intros Hv. unfold preserve_one. run_monad. by rewrite Hv. Qed.

(** A raising call site ends the pass: the sites after it are not visited. *)
Lemma preserve_original_imports_aborts d site rest :
  imports_to_preserve d = site :: rest →
  import_to_rva_map d !! fst (snd site) = None →
  preserve_original_imports d
  = (set_events (events d ++ [EvLogInfo (MsgPreserving (fst site) (fst (snd site)))]) d,
     Raise TypeError).
Proof.
  destruct site as [instr_ea [name instr_size]]. simpl. intros Hl Hv.
  unfold preserve_original_imports. unfold mbind at 1, M_bind at 1, gets.
  rewrite Hl. simpl for_each.
  by rewrite (bind_raise _ _ _ _ _ (preserve_one_missing instr_ea name instr_size d Hv)).
Qed.

(** ** The pipeline as a whole *)

Lemma layout_func_starts d fs off :
  map (λ f, rfn_func_start_ea (snd f)) (layout d fs off)
  = map (λ f, rfn_func_start_ea (snd f)) fs.
Proof.
  revert off. induction fs as [|[func_ea rfn] fs IH]; intros off; [done|].
  simpl. by rewrite IH.
Qed.

Lemma layout_keys d fs off : map fst (layout d fs off) = map fst fs.
Proof.
  revert off. induction fs as [|[func_ea rfn] fs IH]; intros off; [done|].
  simpl. by rewrite IH.
Qed.

(** [build_relocations] is the emitter run to its end, then a stretch in
    which the function table and the relocation map stay as the emitter left
    them. *)
Lemma build_relocations_run d starting_off preserve :
  ∃ d1 d2 r E2,
    emitter starting_off d = (d1, Ok tt)
    ∧ build_relocations starting_off preserve d = (d2, r)
    ∧ cfg d2 = cfg d1
    ∧ global_relocs d2 = global_relocs d1
    ∧ events d2 = events d1 ++ E2
    ∧ reloc_stores E2 = []
    ∧ fixup_entries E2 = map (λ f, rfn_func_start_ea (snd f)) (cfg d1).
Proof.
  destruct (emitter_run starting_off d) as (d1&Hrun1&_).
  destruct (fixups_loop_events (cfg d1) d1) as (d2&Hrun2&Hg2&Hc2&E2&He2&Hs2&Hf2).
  assert (fixups d1 = (d2, Ok tt)) as Hfix.
  { unfold fixups, gets, mbind, M_bind. exact Hrun2. }
  destruct preserve.
  - pose proof (quiet_preserve_original_imports d2) as (Hg3&Hc3&E3&He3&HF3).
    destruct (output_no_stores _ HF3) as [Hs3 Hf3].
    destruct (preserve_original_imports d2) as [d3 r] eqn:Hrun3. simpl in *.
    exists d1, d3, r, (E2 ++ E3). split; [done|]. split.
    { unfold build_relocations, mbind, M_bind. by rewrite Hrun1, Hfix, Hrun3. }
    split; [congruence|]. split; [congruence|].
    split; [by rewrite He3, He2, app_assoc|].
    rewrite reloc_stores_app, fixup_entries_app, Hs2, Hs3, Hf2, Hf3.
    by rewrite !app_nil_r.
  - exists d1, d2, (Ok tt), E2. split; [done|]. split; [|done].
    unfold build_relocations, mbind, M_bind. by rewrite Hrun1, Hfix.
Qed.

(** C1. For every input, [build_relocations] first runs the emitter to its
    end: the emitter's events are exactly its stores into the relocation map,
    one under [(func, func, false)] per function followed by one under
    [(func, instruction address, is_boundary)] per instruction of that
    function.  Every entry into [apply_all_fixups_to_rfn] comes after all of
    them, once per function, and from the first entry on no store into the
    relocation map happens: the map at the end is the map the emitter left. *)
Theorem build_relocations_emits_before_fixups d starting_off preserve :
  let d1 := (emitter starting_off d).1 in
  let d2 := (build_relocations starting_off preserve d).1 in
  let ws := emit_writes d (cfg d) starting_off in
  ∃ E2,
    events d1 = events d ++ map reloc_event ws
    ∧ map fst ws = emit_keys d
    ∧ global_relocs d1 = store_all (global_relocs d) ws
    ∧ events d2 = events d1 ++ E2
    ∧ fixup_entries E2 = map (λ f, rfn_func_start_ea (snd f)) (cfg d)
    ∧ reloc_stores E2 = []
    ∧ global_relocs d2 = global_relocs d1.
Proof.
  intros d1 d2 ws. subst d1 d2 ws.
  destruct (build_relocations_run d starting_off preserve)
    as (d1&d2&r&E2&Hrun1&Hrun2&Hc&Hg&He&Hs&Hf).
  destruct (emitter_run starting_off d) as (d1'&Hrun1'&_&Hc1&He1&Hg1).
  rewrite Hrun1 in Hrun1'. injection Hrun1' as <-.
  rewrite Hrun1, Hrun2. simpl. exists E2.
  split; [done|]. split; [apply emit_writes_keys|]. split; [done|].
  split; [done|]. split; [|done].
  by rewrite Hf, Hc1, layout_func_starts.
Qed.

(** C7. From a 16-byte-aligned starting offset every function gets a
    relocated start that is a multiple of 16, and between the end of the
    bytes emitted for a function and the start of the function emitted next
    there are at least 8 bytes. *)
Theorem build_relocations_alignment_and_padding d starting_off preserve :
  starting_off mod 16 = 0 →
  let d' := (build_relocations starting_off preserve d).1 in
  map fst (cfg d') = map fst (cfg d)
  ∧ Forall (λ f, rfn_reloc_ea (snd f) mod 16 = 0) (cfg d')
  ∧ ∀ (k : nat) f1 f2,
      cfg d' !! k = Some f1 → cfg d' !! S k = Some f2 →
      rfn_reloc_ea (snd f1) + flow_size d (normalized_flow (snd f1)) + 8
        ≤ rfn_reloc_ea (snd f2).
Proof.
  intros Hal d'. subst d'.
  destruct (build_relocations_run d starting_off preserve)
    as (d1&d2&r&E2&Hrun1&Hrun2&Hc&_).
  destruct (emitter_run starting_off d) as (d1'&Hrun1'&_&Hc1&_).
  rewrite Hrun1 in Hrun1'. injection Hrun1' as <-.
  rewrite Hrun2. simpl. rewrite Hc, Hc1.
  split; [apply layout_keys|]. split; [by apply layout_aligned|].
  intros k f1 f2. apply layout_gap.
Qed.

(** The cursor after a function's flow is its start plus [flow_size]: the
    end used in the padding bound is where the emitter stopped writing. *)
Lemma emit_flow_cursor func_ea flow off d :
  (emit_flow func_ea flow off d).2 = Ok (off + flow_size d flow).
Proof. destruct (emit_flow_run func_ea flow off d) as (d'&->&_). done. Qed.

(** ** Further properties of the emitter *)

(** X1. [align_to_16_byte_boundary] returns the least multiple of 16 that is
    not below its argument, and is a fixed point on its results. *)
Theorem align_to_16_byte_boundary_least value :
  let r := align_to_16_byte_boundary value in
  r mod 16 = 0 ∧ value ≤ r < value + 16 ∧ align_to_16_byte_boundary r = r.
Proof.
  intros r. subst r.
  pose proof (align_to_16_byte_boundary_mod value) as Hm.
  pose proof (align_to_16_byte_boundary_bounds value) as Hb.
  split; [done|]. split; [done|].
  set (r := align_to_16_byte_boundary value) in *.
  pose proof (align_to_16_byte_boundary_mod r) as Hm2.
  pose proof (align_to_16_byte_boundary_bounds r) as Hb2.
  set (r2 := align_to_16_byte_boundary r) in *.
  apply Z.mod_divide in Hm as [a Ha]; [|lia].
  apply Z.mod_divide in Hm2 as [b Hb']; [|lia]. lia.
Qed.

(** X2. The emitter never raises, and [build_relocations] without the import
    preservation pass returns normally on every input: the faults of the
    fixups of each function are caught and printed. *)
Theorem build_relocations_without_preservation_returns d starting_off :
  (emitter starting_off d).2 = Ok tt
  ∧ (build_relocations starting_off false d).2 = Ok tt.
Proof.
  destruct (emitter_run starting_off d) as (d1&Hrun1&_).
  destruct (fixups_loop_events (cfg d1) d1) as (d2&Hrun2&_).
  split; [by rewrite Hrun1|].
  unfold build_relocations, fixups, gets, mbind, M_bind.
  by rewrite Hrun1, Hrun2.
Qed.

Lemma slice_assign_nonneg buf lo new :
  0 ≤ lo → slice_assign buf lo (lo + len new) new = splice buf lo new.
Proof.
  intros Hlo. pose proof (len_nonneg new) as Hn. pose proof (len_nonneg buf) as Hb.
  unfold slice_assign, splice, py_index.
  destruct (lo <? 0) eqn:E1; [apply Z.ltb_lt in E1; lia|].
  destruct (lo + len new <? 0) eqn:E2; [apply Z.ltb_lt in E2; lia|].
  rewrite Z.max_r by lia.
  destruct (Z_le_gt_dec lo (len buf)).
  - rewrite (Z.min_l lo) by lia. f_equal. f_equal.
    destruct (Z_le_gt_dec (lo + len new) (len buf)).
    + by rewrite Z.min_l by lia.
    + rewrite Z.min_r by lia. unfold len in *.
      rewrite !drop_ge by lia. done.
  - rewrite !Z.min_r by lia. unfold len in *.
    rewrite !take_ge by lia. rewrite !drop_ge by lia. done.
Qed.

Lemma splice_nil buf off : 0 ≤ off → splice buf off [] = buf.
Proof.
  intros. unfold splice. simpl. replace (off + len []) with off by (unfold len; simpl; lia).
  apply take_drop.
Qed.

Lemma splice_splice buf off c1 c2 :
  0 ≤ off →
  splice (splice buf off c1) (off + len c1) c2 = splice buf off (c1 ++ c2).
Proof.
  intros Hoff. unfold splice.
  assert (len (c1 ++ c2) = len c1 + len c2) as ->
    by (unfold len; rewrite length_app; lia).
  pose proof (len_nonneg c1). pose proof (len_nonneg c2).
  rewrite <- !app_assoc.
  destruct (Z_le_gt_dec off (len buf)) as [Hle|Hgt].
  - assert (length (take (Z.to_nat off) buf ++ c1) = Z.to_nat (off + len c1)) as Hl.
    { unfold len in *. rewrite length_app, length_take. lia. }
    rewrite (app_assoc (take _ buf) c1).
    rewrite take_app_length' by done.
    rewrite drop_app_ge by lia. rewrite Hl.
    rewrite <- app_assoc. do 3 f_equal.
    rewrite drop_drop. f_equal. lia.
  - unfold len in *.
    rewrite (take_ge buf) by lia.
    rewrite !(drop_ge buf) by lia. rewrite app_nil_r.
    rewrite take_ge by (rewrite length_app; lia).
    rewrite drop_ge by (rewrite length_app; lia).
    by rewrite <- app_assoc.
Qed.

Lemma splice_prefix buf off code s :
  0 ≤ s ≤ off → s ≤ len buf →
  take (Z.to_nat s) (splice buf off code) = take (Z.to_nat s) buf.
Proof.
  intros Hs Hl. unfold splice, len in *.
  rewrite take_app_le by (rewrite length_take; lia).
  rewrite take_take. f_equal. lia.
Qed.

Lemma splice_length_ge buf off code : 0 ≤ off → len buf ≤ len (splice buf off code).
Proof.
  intros Hoff. unfold splice, len.
  rewrite !length_app, length_take, length_drop. unfold len. lia.
Qed.

Lemma flow_code_same_code d d' flow : same_code d d' → flow_code d' flow = flow_code d flow.
Proof.
  intros H. induction flow as [|i flow IH]; [done|].
  simpl. by rewrite IH, (same_code_ops d d').
Qed.

Lemma flow_code_len d flow : len (flow_code d flow) = flow_size d flow.
Proof.
  induction flow as [|i flow IH]; [done|].
  simpl. fold (flow_size d flow). rewrite <- IH. unfold len.
  rewrite length_app. lia.
Qed.

Lemma emit_instr_buffer func_ea off i d :
  newimgbuffer (emit_instr func_ea off i d).1
  = slice_assign (newimgbuffer d) off (off + len (ops_of (instrs d i)))
      (ops_of (instrs d i)).
Proof. unfold emit_instr. run_monad. done. Qed.

(** X3. The emitter writes the bytes of a flow one after the other from the
    cursor on: the buffer after a flow is the buffer before it with the
    concatenated instruction bytes spliced in at the cursor.  It never
    raises; a cursor past the end of the buffer makes the bytes land at the
    end of the buffer instead. *)
Theorem emit_flow_writes_contiguous_code func_ea flow off d :
  0 ≤ off →
  (emit_flow func_ea flow off d).2 = Ok (off + len (flow_code d flow))
  ∧ newimgbuffer (emit_flow func_ea flow off d).1
    = splice (newimgbuffer d) off (flow_code d flow).
Proof.
  intros Hoff. split.
  { rewrite emit_flow_cursor. by rewrite flow_code_len. }
  revert off d Hoff. induction flow as [|i flow IH]; intros off d Hoff.
  - simpl. by rewrite splice_nil.
  - destruct (emit_instr_run func_ea off i d) as (d1&Hrun1&Hem1).
    pose proof (emit_instr_buffer func_ea off i d) as Hb1. rewrite Hrun1 in Hb1.
    simpl in Hb1. simpl emit_flow. rewrite (bind_ok _ _ _ _ _ Hrun1).
    pose proof (len_nonneg (ops_of (instrs d i))).
    rewrite IH by lia. rewrite Hb1, slice_assign_nonneg by done.
    rewrite (flow_code_same_code d d1) by apply Hem1.
    rewrite splice_splice by done. done.
Qed.

Lemma emit_funcs_prefix fs off d s :
  0 ≤ s ≤ off → s ≤ len (newimgbuffer d) →
  take (Z.to_nat s) (newimgbuffer (emit_funcs fs off d).1)
  = take (Z.to_nat s) (newimgbuffer d)
  ∧ len (newimgbuffer d) ≤ len (newimgbuffer (emit_funcs fs off d).1).
Proof.
  revert off d. induction fs as [|[func_ea rfn] fs IH]; intros off d Hs Hl.
  - simpl. split; [done|lia].
  - destruct (reloc_set_run (func_ea, func_ea, false) off d) as (d1&Hrun1&Hem1&Hi1&Hb1).
    destruct (emit_flow_run func_ea (normalized_flow rfn) off d1) as (d2&Hrun2&Hem2).
    destruct (emit_flow_writes_contiguous_code func_ea (normalized_flow rfn) off d1
                ltac:(lia)) as [_ Hb2].
    rewrite Hrun2 in Hb2. simpl in Hb2. rewrite Hb1 in Hb2.
    simpl emit_funcs. rewrite (bind_ok _ _ _ _ _ Hrun1), (bind_ok _ _ _ _ _ Hrun2).
    pose proof (flow_size_nonneg d1 (normalized_flow rfn)) as Hfs.
    pose proof (align_to_16_byte_boundary_bounds
                  (off + flow_size d1 (normalized_flow rfn) + 8)) as Hal.
    pose proof (splice_length_ge (newimgbuffer d) off
                  (flow_code d1 (normalized_flow rfn)) ltac:(lia)) as Hge.
    rewrite <- Hb2 in Hge.
    destruct (IH (align_to_16_byte_boundary (off + flow_size d1 (normalized_flow rfn) + 8))
                d2 ltac:(lia) ltac:(lia)) as [IH1 IH2].
    unfold mbind, M_bind.
    destruct (emit_funcs fs _ d2) as [d3 [fs'|e]]; simpl in *.
    + rewrite IH1, Hb2. split; [by apply splice_prefix|lia].
    + rewrite IH1, Hb2. split; [by apply splice_prefix|lia].
Qed.

(** X4. The emitter writes nothing below the starting offset and never
    shortens the buffer: the bytes before [starting_off] are those of the
    template. *)
Theorem emitter_keeps_bytes_below_start d starting_off :
  0 ≤ starting_off ≤ len (newimgbuffer d) →
  take (Z.to_nat starting_off) (newimgbuffer (emitter starting_off d).1)
  = take (Z.to_nat starting_off) (newimgbuffer d)
  ∧ len (newimgbuffer d) ≤ len (newimgbuffer (emitter starting_off d).1).
Proof.
  intros Hs.
  destruct (emit_funcs_prefix (cfg d) starting_off d starting_off ltac:(lia) ltac:(lia))
    as [H1 H2].
  unfold emitter, gets, modify, mbind, M_bind.
  destruct (emit_funcs (cfg d) starting_off d) as [d1 [fs'|e]]; simpl in *; done.
Qed.

Lemma store_all_lookup ws g k :
  store_all g ws !! k
  = match last_store ws k with Some v => Some v | None => g !! k end.
Proof.
  revert g. induction ws as [|[k' v] ws IH]; intros g; [done|].
  unfold store_all in *. simpl. rewrite IH.
  destruct (last_store ws k); [done|].
  destruct (decide (k' = k)) as [->|Hne].
  - by rewrite lookup_insert_eq.
  - by rewrite lookup_insert_ne.
Qed.

(** X5. After [build_relocations] a key of the relocation map holds the
    offset of the last store the emitter made under it, and a key the emitter
    never stored under holds what it held before: stores under one key
    overwrite each other, the last one wins. *)
Theorem relocation_map_keeps_last_store d starting_off preserve k :
  global_relocs (build_relocations starting_off preserve d).1 !! k
  = match last_store (emit_writes d (cfg d) starting_off) k with
    | Some v => Some v
    | None => global_relocs d !! k
    end.
Proof.
  destruct (build_relocations_run d starting_off preserve)
    as (d1&d2&r&E2&Hrun1&Hrun2&_&Hg&_).
  destruct (emitter_run starting_off d) as (d1'&Hrun1'&_&_&_&Hg1).
  rewrite Hrun1 in Hrun1'. injection Hrun1' as <-.
  rewrite Hrun2. simpl. rewrite Hg, Hg1. apply store_all_lookup.
Qed.

(** X6. The displacement of a fixup is always encodable: for an integer
    destination [CALC_FIXUP] yields a value that [PACK_FIXUP] packs without a
    [struct.error] into four bytes, each below 256, whose little-endian
    reading is the fixup again; added to the address of the next instruction
    it gives the destination modulo 2^32. *)
Theorem fixup_is_packed_and_reads_back r dest size :
  let v := (dest - (reloc_ea r + size)) mod 2 ^ 32 in
  CALC_FIXUP r (Some dest) size = Ok (Z.land (dest - (reloc_ea r + size)) 0xFFFFFFFF)
  ∧ PACK_FIXUP (Z.land (dest - (reloc_ea r + size)) 0xFFFFFFFF) = Ok (le32 v)
  ∧ length (le32 v) = 4%nat
  ∧ Forall (λ b, 0 ≤ b < 256) (le32 v)
  ∧ read_le32 (le32 v) 0 = v
  ∧ (reloc_ea r + size + v - dest) mod 2 ^ 32 = 0.
Proof.
  intros v. subst v.
  set (x := dest - (reloc_ea r + size)).
  pose proof (Z.mod_pos_bound x (2 ^ 32) ltac:(lia)) as Hv.
  split; [done|]. split; [apply PACK_FIXUP_masked|]. split; [done|].
  split.
  - unfold le32. change 255 with (Z.ones 8).
    repeat constructor; rewrite Z.land_ones by lia;
      apply (Z.mod_pos_bound _ (2 ^ 8)); lia.
  - split.
    + unfold read_le32, le32. simpl. by apply le32_value.
    + replace (reloc_ea r + size + x mod 2 ^ 32 - dest) with (x mod 2 ^ 32 - x)
        by (unfold x; lia).
      rewrite Zminus_mod, Z.mod_mod, Z.sub_diag by lia. done.
Qed.

(** ** Further properties of the fixup steps *)

Lemma keeps_bind {X A B} (proj : ProtectedInput64 → X) (m : M A) (f : A → M B) :
  keeps proj m → (∀ a, keeps proj (f a)) → keeps proj (m ≫= f).
Proof.
  intros Hm Hf d. unfold mbind, M_bind. specialize (Hm d).
  destruct (m d) as [d1 [a|e]]; simpl in *; [|done].
  by rewrite Hf.
Qed.

Lemma keeps_assert {X} (proj : ProtectedInput64 → X) b : keeps proj (py_assert b).
Proof. by destruct b. Qed.

Ltac keeps_tac :=
  repeat first
    [ apply keeps_bind; [|intros ?]
    | apply keeps_assert
    | match goal with
      | |- keeps _ (if ?b then _ else _) => destruct b
      | |- keeps _ (match ?x with _ => _ end) => destruct x
      end
    | (intros ?; reflexivity) ].

Lemma keeps_events_resolve_disp i dest : keeps events (resolve_disp_fixup_and_apply i dest).
Proof. unfold resolve_disp_fixup_and_apply. keeps_tac. Qed.

Lemma keeps_events_update i tag : keeps events (update_reloc_in_img i tag).
Proof. unfold update_reloc_in_img. keeps_tac. Qed.

Lemma keeps_imports_update i tag : keeps imports (update_reloc_in_img i tag).
Proof. unfold update_reloc_in_img. keeps_tac. Qed.

Lemma keeps_events_dataflow_dest r : keeps events (dataflow_dest r).
Proof. unfold dataflow_dest. keeps_tac. Qed.

Lemma reloc_ctrlflow_start rfn i d t :
  let r := instrs d i in
  is_obf_import r = false →
  global_relocs d !! ctrlflow_key rfn r = Some t → t ≠ 0 → t ≠ -1 →
  reloc_ctrlflow rfn i d
  = (resolve_imm_fixup_and_apply i t ;; update_reloc_in_img i "CtrlFlow") d.
Proof.
  intros r Ho Hk Hne Hne1. subst r. unfold reloc_ctrlflow, ctrlflow_key in *.
  unfold mbind at 1, M_bind at 1, gets at 1. rewrite Ho.
  assert ((if is_call (instr (instrs d i))
           then lookup_reloc (op1_imm (instr (instrs d i)),
                              op1_imm (instr (instrs d i)), false) "Call_Reloc"
           else lookup_reloc (rfn_func_start_ea rfn,
                              op1_imm (instr (instrs d i)), false) "JxxJmp_Reloc") d
          = (d, Ok t)) as Hl.
  { destruct (is_call (instr (instrs d i))); by apply lookup_reloc_run. }
  rewrite (bind_ok _ _ _ _ _ Hl).
  unfold py_assert. rewrite (proj2 (Z.eqb_neq t (-1)) Hne1). done.
Qed.

(** X7. A call that is not resolved as an import has its target looked up
    under (target, target, false), whatever function it sits in, and its
    bytes are replaced by what the assembler returns for the mnemonic and the
    relocated target at the relocated address; an assembler failure is a
    fault that changes nothing. *)
Theorem call_fixup_is_reassembled rfn i d t :
  let r := instrs d i in
  is_obf_import r = false → is_call (instr r) = true →
  global_relocs d !! (op1_imm (instr r), op1_imm (instr r), false) = Some t →
  t ≠ 0 → t ≠ -1 →
  match ks_asm (mnemonic (instr r)) t (reloc_ea r) with
  | Some bs => updated_bytes (instrs (reloc_ctrlflow rfn i d).1 i) = bs
  | None => reloc_ctrlflow rfn i d = (d, Raise KsError)
  end.
Proof.
  intros r Ho Hc Hk Hne Hne1. subst r.
  rewrite (reloc_ctrlflow_start rfn i d t) by (unfold ctrlflow_key; rewrite ?Hc; done).
  unfold resolve_imm_fixup_and_apply. run_monad. rewrite Hc. simpl.
  destruct (ks_asm _ _ _) as [bs|]; simpl; [|done].
  match goal with
  | |- context [update_reloc_in_img ?j ?tag ?s] =>
      destruct (update_reloc_in_img_instr j tag s j) as (Hu&_)
  end.
  rewrite Hu. simpl. by rewrite fn_lookup_insert.
Qed.

(** X8. A control-flow target without a relocation entry, or with the entry
    0, is a [ValueError] that changes nothing: no byte of the instruction and
    no byte of the buffer. *)
Theorem ctrlflow_unresolved_target_is_a_fault rfn i d :
  let r := instrs d i in
  is_obf_import r = false →
  truthy (global_relocs d !! ctrlflow_key rfn r) = false →
  reloc_ctrlflow rfn i d
  = (d, Raise (ValueError (if is_call (instr r) then "Call_Reloc" else "JxxJmp_Reloc"))).
Proof.
  intros r Ho Hk. subst r. unfold reloc_ctrlflow, ctrlflow_key, lookup_reloc in *.
  run_monad. rewrite Ho.
  destruct (is_call (instr (instrs d i))); simpl; by rewrite Hk.
Qed.

(** X9. A resolved jump whose placeholder has not the expected size (5 bytes
    for [jmp], 6 for [jcc]), and a control-flow entry that is neither call,
    [jcc] nor [jmp], fail an assertion and change nothing. *)
Theorem ctrlflow_placeholder_is_asserted rfn i d t :
  let r := instrs d i in
  let n := len (updated_bytes r) in
  is_obf_import r = false → is_call (instr r) = false →
  global_relocs d !! ctrlflow_key rfn r = Some t → t ≠ 0 → t ≠ -1 →
  (is_jmp (instr r) = true ∧ n ≠ 5)
  ∨ (is_jmp (instr r) = false ∧ is_jcc (instr r) = true ∧ n ≠ 6)
  ∨ (is_jmp (instr r) = false ∧ is_jcc (instr r) = false) →
  reloc_ctrlflow rfn i d = (d, Raise AssertionError).
Proof.
  intros r n Ho Hc Hk Hne Hne1 Hshape. subst r n.
  rewrite (reloc_ctrlflow_start rfn i d t) by done.
  unfold resolve_imm_fixup_and_apply, CALC_FIXUP. run_monad. rewrite Hc.
  destruct Hshape as [[Hj Hn]|[(Hj&Hcc&Hn)|[Hj Hcc]]]; rewrite ?Hj, ?Hcc; simpl.
  - rewrite ?orb_true_r. simpl. rewrite ?Hj.
    by rewrite (proj2 (Z.eqb_neq _ 5) Hn).
  - rewrite ?Hj, ?Hcc. by rewrite (proj2 (Z.eqb_neq _ 6) Hn).
  - done.
Qed.

(** X10. A data-flow destination outside the data region without a
    relocation entry, or with the entry 0, is a fault ([TypeError] for the
    missing entry, whose error message cannot be formatted, [ValueError]
    tagged with the upper-cased mnemonic for 0): the buffer is left alone and
    the instruction's patch bytes are its original bytes. *)
Theorem dataflow_unresolved_target_is_a_fault i d :
  let r := instrs d i in
  let D := disp_dest (instr r) in
  let run := reloc_dataflow i d in
  IS_IN_DATA d D = false →
  truthy (global_relocs d !! (D, D, false)) = false →
  run.2 = Raise (match global_relocs d !! (D, D, false) with
                 | None => TypeError
                 | Some _ => ValueError ("ResolveFixup_" +:+ upper (mnemonic (instr r)))
                 end)
  ∧ newimgbuffer run.1 = newimgbuffer d
  ∧ updated_bytes (instrs run.1 i) = bytes (instr r).
Proof.
  intros r D run Hin Hk. subst r D run. unfold reloc_dataflow, dataflow_dest.
  unfold IS_IN_DATA in *. run_monad.
  destruct (bool_decide (id (instr (instrs d i)) ∈ KNOWN)); simpl; rewrite Hin; simpl.
  all: destruct (global_relocs d !! _) as [v|]; simpl in *;
    [apply negb_false_iff in Hk; rewrite Hk|]; simpl.
  all: rewrite fn_lookup_insert; done.
Qed.

(** X11. A synthetic boundary jump listed among the import relocations is not
    patched as an import: the import step clears its [is_obf_import] mark, so
    that the control-flow step that follows fixes it up as a jump, whether or
    not the mark was set before. *)
Theorem boundary_import_is_fixed_as_jump rfn i d t :
  let r := instrs d i in
  let n := len (updated_bytes r) in
  let run := (reloc_import i ;; reloc_ctrlflow rfn i) d in
  is_boundary_jmp r = true → is_call (instr r) = false →
  (is_jmp (instr r) = true ∧ n = 5)
  ∨ (is_jmp (instr r) = false ∧ is_jcc (instr r) = true ∧ n = 6) →
  global_relocs d !! (rfn_func_start_ea rfn, op1_imm (instr r), false) = Some t →
  t ≠ 0 → t ≠ -1 →
  updated_bytes (instrs run.1 i)
  = take (Z.to_nat (n - 4)) (updated_bytes r)
    ++ le32 ((t - (reloc_ea r + n)) mod 2 ^ 32).
Proof.
  intros r n run Hb Hc Hshape Hk Hne Hne1. subst r n run.
  set (d1 := set_events (events d ++ [EvPrint (MsgSkipSynthetic i)])
               (set_instrs (<[i := set_is_obf_import false (instrs d i)]> (instrs d)) d)).
  assert (reloc_import i d = (d1, Ok tt)) as Hrun.
  { unfold reloc_import. run_monad. by rewrite Hb. }
  rewrite (bind_ok _ _ _ _ _ Hrun).
  assert (instrs d1 i = set_is_obf_import false (instrs d i)) as Hi
    by (unfold d1; simpl; by rewrite fn_lookup_insert).
  destruct Hshape as [[Hj Hn]|(Hm&Hj&Hn)].
  - rewrite (reloc_ctrlflow_jmp_patch rfn i d1 t) by (rewrite ?Hi; done).
    rewrite Hi. simpl. rewrite Hn. by apply (slice_assign_tail4 _ 5).
  - rewrite (reloc_ctrlflow_jcc_patch rfn i d1 t) by (rewrite ?Hi; done).
    rewrite Hi. simpl. rewrite Hn. by apply (slice_assign_tail4 _ 6).
Qed.

(** X12. An import whose symbol has the new RVA 0 is reported like a missing
    one, and patched all the same: the RVA is recorded on the import entry
    and the displacement is computed towards address 0. *)
Theorem import_with_zero_rva_is_patched i d e :
  let r := instrs d i in
  let off := disp_offset (instr r) in
  let d' := (reloc_import i d).1 in
  is_boundary_jmp r = false →
  imports d !! ea (instr r) = Some (Imp e) →
  import_to_rva_map d !! api_name e = Some 0 →
  disp_size (instr r) = 4 → 0 ≤ off → off + 4 ≤ len (bytes (instr r)) →
  (∃ E, events d' = events d ++ EvPrint (MsgNoNewRva i) :: E)
  ∧ imports d' !! ea (instr r) = Some (Imp (set_new_rva (Some 0) e))
  ∧ updated_bytes (instrs d' i)
    = with_disp32 (bytes (instr r)) off ((0 - (reloc_ea r + size (instr r))) mod 2 ^ 32).
Proof.
  intros r off d' Hb Hi Hr Hsz Ho Hl. subst r off d'.
  split; [|split].
  - unfold reloc_import. run_monad. rewrite Hb. simpl. rewrite Hi. simpl. rewrite Hr.
    simpl.
    rewrite resolve_disp_fixup_and_apply_run by (simpl; rewrite fn_lookup_insert; done).
    match goal with
    | |- context [update_reloc_in_img ?j ?tag ?s] =>
        pose proof (keeps_events_update j tag s) as He;
        destruct (update_reloc_in_img j tag s) as [d2 [[]|x]]
    end; simpl in *; rewrite He; simpl.
    + exists [EvPrint (MsgRelocatedImport i)]. by rewrite <- app_assoc.
    + by exists [].
  - unfold reloc_import. run_monad. rewrite Hb. simpl. rewrite Hi. simpl. rewrite Hr.
    simpl.
    rewrite resolve_disp_fixup_and_apply_run by (simpl; rewrite fn_lookup_insert; done).
    match goal with
    | |- context [update_reloc_in_img ?j ?tag ?s] =>
        pose proof (keeps_imports_update j tag s) as He;
        destruct (update_reloc_in_img j tag s) as [d2 [[]|x]]
    end; simpl in *; rewrite He; simpl; by rewrite lookup_insert_eq.
  - rewrite (reloc_import_patch i d 0) by (try done; by exists e).
    by apply slice_assign_disp32.
Qed.


Lemma reloc_dataflow_events i d :
  events (reloc_dataflow i d).1
  = events d ++ (if bool_decide (id (instr (instrs d i)) ∈ KNOWN) then []
                 else [EvPrint MsgMissingDataflow; EvInput MsgStoppingIteration]).
Proof.
  unfold reloc_dataflow. unfold mbind at 1, M_bind at 1, gets at 1.
  match goal with
  | |- events ((?c ≫= ?k) d).1 = _ =>
      assert (∀ u, keeps events (k u)) as Hk
  end.
  { intros u. keeps_tac.
    all: first [apply keeps_events_dataflow_dest | apply keeps_events_resolve_disp
               | apply keeps_events_update]. }
  destruct (bool_decide (id (instr (instrs d i)) ∈ KNOWN)).
  - unfold mbind at 1, M_bind at 1, mret at 1, M_ret at 1.
    rewrite (Hk tt d). by rewrite app_nil_r.
  - unfold mbind at 1, M_bind at 1. unfold mbind at 1, M_bind at 1, emit, modify.
    simpl. rewrite (Hk tt). simpl. by rewrite <- app_assoc.
Qed.

(** X14. A data-flow entry whose instruction id is not in the [KNOWN] list
    is reported, with a prompt, and then patched like a known one; a known
    one is patched without any output. *)
Theorem unknown_dataflow_instruction_is_reported_and_patched i d t :
  let r := instrs d i in
  let off := disp_offset (instr r) in
  let d' := (reloc_dataflow i d).1 in
  dataflow_target d r t → disp_size (instr r) = 4 →
  0 ≤ off → off + 4 ≤ len (bytes (instr r)) →
  events d'
  = events d ++ (if bool_decide (id (instr r) ∈ KNOWN) then []
                 else [EvPrint MsgMissingDataflow; EvInput MsgStoppingIteration])
  ∧ updated_bytes (instrs d' i)
    = with_disp32 (bytes (instr r)) off ((t - (reloc_ea r + size (instr r))) mod 2 ^ 32).
Proof.
  intros r off d' Ht Hsz Ho Hl. subst r off d'.
  split; [apply reloc_dataflow_events|].
  rewrite (reloc_dataflow_patch i d t) by done. by apply slice_assign_disp32.
Qed.

(** ** Further properties of [rebuild_output] and of the preservation pass *)

(** X15. In SELECTIVE mode without a sentinel at or after the selected
    function the scan falls back on the constant offset 0x15311 without any
    output: the bytes from the start of the selected function up to offset
    0x1531f are zero-filled (a shorter template is extended by the zeros);
    a selected function that starts beyond 0x1531f makes the block raise a
    [ValueError] on the negative size, the template being installed
    untouched. *)
Theorem selective_clear_without_sentinel d :
  let sel := selective_func_rva d in
  let template := fst (build_memory_image_with_imports d false) in
  let run := prepare_output d in
  protection_type d = SELECTIVE → cfg d ≠ [] → 0 ≤ sel →
  py_find template END_MARKER sel = -1 →
  events run.1 = events d
  ∧ if sel <=? 0x1531f
    then run.2 = Ok 0x1000
         ∧ newimgbuffer run.1
           = take (Z.to_nat sel) template
             ++ replicate (Z.to_nat (0x1531f - sel)) 0
             ++ drop (Z.to_nat 0x1531f) template
    else run.2 = Raise (ValueError "negative count")
         ∧ newimgbuffer run.1 = template.
Proof.
  intros sel template run Hty Hcfg Hs Hf. subst sel template run.
  unfold prepare_output, install_template, clear_protected_region. run_monad.
  destruct (cfg d) as [|f fs]; [done|]. simpl. rewrite Hty. simpl.
  destruct (selective_func_rva d =? -1) eqn:E; [apply Z.eqb_eq in E; lia|]. simpl.
  rewrite Hf. simpl. change (len END_MARKER) with 14.
  destruct (selective_func_rva d <=? 86815) eqn:E1.
  - apply Z.leb_le in E1.
    destruct (86801 + 14 - selective_func_rva d <? 0) eqn:E2;
      [apply Z.ltb_lt in E2; lia|]. simpl.
    split; [done|]. split; [done|].
    set (zs := replicate (Z.to_nat (86801 + 14 - selective_func_rva d)) 0).
    assert (len zs = 86815 - selective_func_rva d) as Hz.
    { unfold zs, len. rewrite length_replicate. lia. }
    replace (86801 + 14) with (selective_func_rva d + len zs) by lia.
    rewrite slice_assign_nonneg by done. unfold splice. rewrite Hz.
    unfold zs. do 3 f_equal; f_equal; lia.
  - apply Z.leb_gt in E1.
    destruct (86801 + 14 - selective_func_rva d <? 0) eqn:E2;
      [|apply Z.ltb_ge in E2; lia]. done.
Qed.

(** X16. [rebuild_output] refuses an empty function table, and in SELECTIVE
    mode a selected function address of -1, by a failed assertion raised
    before anything is built or written. *)
Theorem rebuild_output_refuses_bad_input preserve d :
  cfg d = [] ∨ (protection_type d = SELECTIVE ∧ selective_func_rva d = -1) →
  rebuild_output preserve d = (d, Raise AssertionError).
Proof.
  intros H. unfold rebuild_output, prepare_output. run_monad.
  destruct (cfg d) as [|f fs] eqn:Hc; [done|].
  destruct H as [H|[Hty Hsel]]; [done|].
  simpl. rewrite Hty. simpl. by rewrite Hsel.
Qed.

Lemma keeps_rvas_preserve_one site : keeps import_to_rva_map (preserve_one site).
Proof. destruct site as [instr_ea [name instr_size]]. unfold preserve_one. keeps_tac. Qed.

Lemma for_each_preserve_one sites d :
  Forall (λ site : Z * (string * Z), is_Some (import_to_rva_map d !! fst (snd site))) sites →
  (for_each preserve_one sites d).2 = Ok tt
  ∧ newimgbuffer (for_each preserve_one sites d).1
    = foldl (preserve_patch (import_to_rva_map d)) (newimgbuffer d) sites.
Proof.
  revert d. induction sites as [|site sites IH]; intros d Hall; [done|].
  inversion Hall as [|site' sites' [v Hv] Hall' Heq]; subst. clear Hall.
  rename Hall' into Hall.
  destruct site as [instr_ea [name instr_size]]. simpl in Hv.
  destruct (preserve_one_patch instr_ea name instr_size d v Hv) as [Hr Hb].
  pose proof (keeps_rvas_preserve_one (instr_ea, (name, instr_size)) d) as Hm.
  destruct (preserve_one (instr_ea, (name, instr_size)) d) as [d1 r1] eqn:Hrun.
  simpl in Hr, Hb, Hm. subst r1.
  simpl for_each. rewrite (bind_ok _ _ _ _ _ Hrun).
  rewrite <- Hm in Hall. destruct (IH d1 Hall) as [IH1 IH2].
  split; [done|]. rewrite IH2, Hm, Hb. simpl foldl. f_equal.
  unfold preserve_patch. simpl. by rewrite Hv.
Qed.

(** X17. When every preserved call site has a new RVA for its symbol, the
    preservation pass returns normally and has patched the sites one after
    the other, each at the two bytes past its address, whatever the recorded
    instruction size. *)
Theorem preserve_original_imports_patches_every_site d :
  let run := preserve_original_imports d in
  Forall (λ site : Z * (string * Z), is_Some (import_to_rva_map d !! fst (snd site)))
    (imports_to_preserve d) →
  run.2 = Ok tt
  ∧ newimgbuffer run.1
    = foldl (preserve_patch (import_to_rva_map d)) (newimgbuffer d)
        (imports_to_preserve d).
Proof.
  intros run Hall. subst run.
  unfold preserve_original_imports, gets, mbind, M_bind.
  by apply for_each_preserve_one.
Qed.

(** ** Running a fixup again *)

Lemma splice_idem buf off code :
  0 ≤ off ≤ len buf → splice (splice buf off code) off code = splice buf off code.
Proof.
  intros Ho. unfold splice.
  set (T := take (Z.to_nat off) buf).
  set (D := drop (Z.to_nat (off + len code)) buf).
  assert (length T = Z.to_nat off) as HlT
    by (unfold T, len in *; rewrite length_take; lia).
  assert (take (Z.to_nat off) (T ++ code ++ D) = T) as ->
    by (by apply take_app_length').
  assert (drop (Z.to_nat (off + len code)) (T ++ code ++ D) = D) as ->.
  { rewrite app_assoc. apply drop_app_length'.
    rewrite length_app. unfold len. lia. }
  done.
Qed.

Lemma keeps_data_range_reloc_dataflow i : keeps data_range_rva (reloc_dataflow i).
Proof.
  unfold reloc_dataflow, dataflow_dest, resolve_disp_fixup_and_apply,
    update_reloc_in_img.
  keeps_tac.
Qed.

Lemma reloc_dataflow_outcome i d t :
  let r := instrs d i in
  let patched :=
    slice_assign (bytes (instr r)) (disp_offset (instr r)) (disp_offset (instr r) + 4)
      (le32 ((t - (reloc_ea r + size (instr r))) mod 2 ^ 32)) in
  dataflow_target d r t → disp_size (instr r) = 4 →
  match md_decode_buffer patched (reloc_ea r) with
  | Some ri =>
      if bool_decide (len patched ≠ size ri)
      then (reloc_dataflow i d).2 = Raise (ValueError "Failed_DataFlow_Reloc")
           ∧ newimgbuffer (reloc_dataflow i d).1 = newimgbuffer d
      else (reloc_dataflow i d).2 = Ok tt
           ∧ newimgbuffer (reloc_dataflow i d).1
             = slice_assign (newimgbuffer d) (reloc_ea r) (reloc_ea r + size ri) patched
  | None => (reloc_dataflow i d).2 = Raise AttributeError
            ∧ newimgbuffer (reloc_dataflow i d).1 = newimgbuffer d
  end.
Proof.
  intros r patched Ht Hsz. subst r patched. unfold reloc_dataflow.
  run_monad.
  unfold dataflow_target, IS_IN_DATA in Ht.
  destruct (bool_decide (id (instr (instrs d i)) ∈ KNOWN)); simpl.
  all: unfold dataflow_dest, IS_IN_DATA; run_monad.
  all: destruct (data_range_rva d _); simpl;
         [subst t|destruct Ht as [Ht Hne]; rewrite Ht;
                  rewrite (proj2 (Z.eqb_neq t 0) Hne)].
  all: rewrite resolve_disp_fixup_and_apply_run by (simpl; rewrite fn_lookup_insert; done).
  all: unfold update_reloc_in_img; run_monad; rewrite !fn_lookup_insert; simpl.
  all: destruct (md_decode_buffer _ _) as [ri|]; [|done].
  all: destruct (bool_decide _); done.
Qed.

(** X18. A data-flow fixup is absolute: applied a second time to an
    instruction relocated inside the buffer it ends the same way and leaves
    the patched bytes and the buffer exactly as the first application left
    them. *)
Theorem dataflow_fixup_is_idempotent i d t :
  let r := instrs d i in
  let d1 := (reloc_dataflow i d).1 in
  let d2 := (reloc_dataflow i d1).1 in
  dataflow_target d r t → disp_size (instr r) = 4 →
  0 ≤ reloc_ea r ≤ len (newimgbuffer d) →
  (reloc_dataflow i d1).2 = (reloc_dataflow i d).2
  ∧ updated_bytes (instrs d2 i) = updated_bytes (instrs d1 i)
  ∧ newimgbuffer d2 = newimgbuffer d1.
Proof.
  intros r d1 d2 Ht Hsz Hin. subst r d2.
  destruct (keeps_addr_reloc_dataflow i d i) as [Hea Hins]. fold d1 in Hea, Hins.
  destruct (quiet_reloc_dataflow i d) as (Hg&_). fold d1 in Hg.
  pose proof (keeps_data_range_reloc_dataflow i d) as Hdr. fold d1 in Hdr.
  assert (dataflow_target d1 (instrs d1 i) t) as Ht1.
  { unfold dataflow_target, IS_IN_DATA in *. by rewrite Hins, Hg, Hdr. }
  assert (disp_size (instr (instrs d1 i)) = 4) as Hsz1 by (by rewrite Hins).
  pose proof (reloc_dataflow_patch i d t Ht Hsz) as Hp. fold d1 in Hp.
  pose proof (reloc_dataflow_patch i d1 t Ht1 Hsz1) as Hp1.
  pose proof (reloc_dataflow_outcome i d t Ht Hsz) as Hout. fold d1 in Hout.
  pose proof (reloc_dataflow_outcome i d1 t Ht1 Hsz1) as Hout1.
  simpl in Hp, Hp1, Hout, Hout1.
  rewrite Hins, Hea in Hp1, Hout1.
  split; [|split; [congruence|]].
  - destruct (md_decode_buffer _ _) as [ri|].
    + destruct (bool_decide _); destruct Hout as [-> _]; by destruct Hout1 as [-> _].
    + destruct Hout as [-> _]; by destruct Hout1 as [-> _].
  - destruct (md_decode_buffer _ _) as [ri|].
    + destruct (bool_decide _) eqn:Hbd.
      * destruct Hout as [_ Hb]. destruct Hout1 as [_ Hb1]. done.
      * apply bool_decide_eq_false in Hbd. apply dec_stable in Hbd.
        destruct Hout as [_ Hb]. destruct Hout1 as [_ Hb1].
        rewrite Hb1, Hb. rewrite <- Hbd.
        rewrite !slice_assign_nonneg by lia.
        by apply splice_idem.
    + destruct Hout as [_ Hb]. destruct Hout1 as [_ Hb1]. done.
Qed.

(** ** The length check after every patch *)

(** [update_reloc_in_img], run. *)
Lemma update_reloc_in_img_run i tag d :
  let r := instrs d i in
  let decoded := md_decode_buffer (updated_bytes r) (reloc_ea r) in
  let d1 := set_instrs (<[i := set_reloc_instr decoded r]> (instrs d)) d in
  update_reloc_in_img i tag d
  = match decoded with
    | Some ri =>
        if bool_decide (len (updated_bytes r) ≠ size ri)
        then (d1, Raise (ValueError ("Failed_" +:+ tag +:+ "_Reloc")))
        else (set_newimgbuffer
                (slice_assign (newimgbuffer d) (reloc_ea r) (reloc_ea r + size ri)
                   (updated_bytes r)) d1, Ok tt)
    | None => (d1, Raise AttributeError)
    end.
Proof.
  unfold update_reloc_in_img. run_monad.
  destruct (md_decode_buffer _ _) as [ri|]; [|done].
  by destruct (bool_decide _).
Qed.

Lemma update_reloc_in_img_outcome i tag s d patched :
  updated_bytes (instrs s i) = patched →
  reloc_ea (instrs s i) = reloc_ea (instrs d i) →
  newimgbuffer s = newimgbuffer d →
  checked_outcome (update_reloc_in_img i tag s) d i tag patched.
Proof.
  intros <- Ha Hb. unfold checked_outcome. rewrite update_reloc_in_img_run.
  rewrite <- Ha, <- Hb.
  destruct (md_decode_buffer _ _) as [ri|]; simpl.
  - destruct (bool_decide _); simpl; rewrite fn_lookup_insert; done.
  - rewrite fn_lookup_insert. done.
Qed.

(** The report printed after a checked import does not change the outcome. *)
Lemma checked_outcome_emit i tag e s d patched :
  checked_outcome (update_reloc_in_img i tag s) d i tag patched →
  checked_outcome ((update_reloc_in_img i tag ;; emit e) s) d i tag patched.
Proof.
  unfold checked_outcome. intros (Hu&Hr&Hm). unfold mbind, M_bind.
  destruct (update_reloc_in_img i tag s) as [s1 [[]|x]]; [|done].
  simpl in *. split; [done|]. split; [done|].
  destruct (md_decode_buffer _ _) as [ri|]; [|by destruct Hm].
  destruct (bool_decide _); by destruct Hm.
Qed.

Lemma reloc_import_checked i d t :
  let r := instrs d i in
  is_boundary_jmp r = false → import_target d r t → disp_size (instr r) = 4 →
  checked_outcome (reloc_import i d) d i "Import"
    (slice_assign (bytes (instr r)) (disp_offset (instr r)) (disp_offset (instr r) + 4)
       (le32 ((t - (reloc_ea r + size (instr r))) mod 2 ^ 32))).
Proof.
  intros r Hb (e&Hi&Hr) Hsz. subst r. unfold reloc_import.
  run_monad. rewrite Hb. simpl. rewrite Hi. simpl. rewrite Hr.
  destruct (truthy (Some t)); simpl.
  all: rewrite resolve_disp_fixup_and_apply_run by (simpl; rewrite fn_lookup_insert; done).
  all: apply (checked_outcome_emit i "Import" (EvPrint (MsgRelocatedImport i))).
  all: apply update_reloc_in_img_outcome; simpl; rewrite ?fn_lookup_insert; done.
Qed.

Lemma reloc_dataflow_checked i d t :
  let r := instrs d i in
  dataflow_target d r t → disp_size (instr r) = 4 →
  checked_outcome (reloc_dataflow i d) d i "DataFlow"
    (slice_assign (bytes (instr r)) (disp_offset (instr r)) (disp_offset (instr r) + 4)
       (le32 ((t - (reloc_ea r + size (instr r))) mod 2 ^ 32))).
Proof.
  intros r Ht Hsz. subst r. unfold reloc_dataflow.
  run_monad.
  unfold dataflow_target, IS_IN_DATA in Ht.
  destruct (bool_decide (id (instr (instrs d i)) ∈ KNOWN)); simpl.
  all: unfold dataflow_dest, IS_IN_DATA; run_monad.
  all: destruct (data_range_rva d _); simpl;
         [subst t|destruct Ht as [Ht Hne]; rewrite Ht;
                  rewrite (proj2 (Z.eqb_neq t 0) Hne)].
  all: rewrite resolve_disp_fixup_and_apply_run by (simpl; rewrite fn_lookup_insert; done).
  all: apply update_reloc_in_img_outcome; simpl; rewrite ?fn_lookup_insert; done.
Qed.

Lemma reloc_jump_checked rfn i d t :
  let r := instrs d i in
  let n := len (updated_bytes r) in
  is_obf_import r = false → is_call (instr r) = false →
  (is_jmp (instr r) = true ∧ n = 5)
  ∨ (is_jmp (instr r) = false ∧ is_jcc (instr r) = true ∧ n = 6) →
  global_relocs d !! (rfn_func_start_ea rfn, op1_imm (instr r), false) = Some t →
  t ≠ 0 → t ≠ -1 →
  checked_outcome (reloc_ctrlflow rfn i d) d i "CtrlFlow"
    (take (Z.to_nat (n - 4)) (updated_bytes r)
     ++ le32 ((t - (reloc_ea r + n)) mod 2 ^ 32)).
Proof.
  intros r n Ho Hc Hshape Hk Hne Hne1. subst r n.
  rewrite (reloc_ctrlflow_start rfn i d t)
    by (unfold ctrlflow_key; rewrite ?Hc; done).
  unfold resolve_imm_fixup_and_apply, CALC_FIXUP. run_monad. rewrite Hc.
  destruct Hshape as [[Hj Hn]|(Hm&Hj&Hn)].
  - rewrite Hj, orb_true_r. simpl. rewrite Hn. simpl. rewrite PACK_FIXUP_masked.
    rewrite <- (slice_assign_tail4 _ 5) by (done || lia).
    apply update_reloc_in_img_outcome; simpl; rewrite ?fn_lookup_insert; done.
  - rewrite Hm, Hj. simpl. rewrite Hn. simpl. rewrite PACK_FIXUP_masked.
    rewrite <- (slice_assign_tail4 _ 6) by (done || lia).
    apply update_reloc_in_img_outcome; simpl; rewrite ?fn_lookup_insert; done.
Qed.

Lemma reloc_call_checked rfn i d t bs :
  let r := instrs d i in
  is_obf_import r = false → is_call (instr r) = true →
  global_relocs d !! (op1_imm (instr r), op1_imm (instr r), false) = Some t →
  t ≠ 0 → t ≠ -1 →
  ks_asm (mnemonic (instr r)) t (reloc_ea r) = Some bs →
  checked_outcome (reloc_ctrlflow rfn i d) d i "CtrlFlow" bs.
Proof.
  intros r Ho Hc Hk Hne Hne1 Hks. subst r.
  rewrite (reloc_ctrlflow_start rfn i d t)
    by (unfold ctrlflow_key; rewrite ?Hc; done).
  unfold resolve_imm_fixup_and_apply. run_monad. rewrite Hc. simpl. rewrite Hks.
  apply update_reloc_in_img_outcome; simpl; rewrite ?fn_lookup_insert; done.
Qed.

(** Every way a step can end. *)
Lemma checked_or_skipped_skip (m : M unit) d i (P : Prop) :
  keeps_buffer m → P → checked_or_skipped (m d) d i P.
Proof.
  intros Hk HP. unfold checked_or_skipped. specialize (Hk d).
  destruct (m d) as [d1 [[]|e]]; simpl in *; [by left|done].
Qed.

Lemma checked_or_skipped_bind {A} (m : M A) (f : A → M unit) d i (P : Prop) :
  keeps_buffer m →
  (∀ a d1, m d = (d1, Ok a) → checked_or_skipped (f a d1) d1 i P) →
  checked_or_skipped ((m ≫= f) d) d i P.
Proof.
  intros Hm Hf. specialize (Hm d).
  destruct (m d) as [d1 [a|e]] eqn:Hrun; simpl in Hm.
  - rewrite (bind_ok _ _ _ _ _ Hrun). specialize (Hf a d1 eq_refl).
    unfold checked_or_skipped in *. by rewrite <- Hm.
  - rewrite (bind_raise _ _ _ _ _ Hrun). done.
Qed.

Lemma checked_or_skipped_update i tag d (P : Prop) :
  checked_or_skipped (update_reloc_in_img i tag d) d i P.
Proof.
  unfold checked_or_skipped. rewrite update_reloc_in_img_run.
  destruct (md_decode_buffer (updated_bytes (instrs d i)) (reloc_ea (instrs d i)))
    as [ri|] eqn:Hd; simpl; [|done].
  destruct (bool_decide _) eqn:Hbd; simpl; [done|].
  right. exists ri. rewrite fn_lookup_insert. simpl.
  apply bool_decide_eq_false in Hbd.
  repeat split; try done.
  destruct (decide (size ri = len (updated_bytes (instrs d i)))) as [|Hne]; [done|].
  exfalso. apply Hbd. congruence.
Qed.

Lemma checked_or_skipped_update_emit i tag e d (P : Prop) :
  checked_or_skipped ((update_reloc_in_img i tag ;; emit e) d) d i P.
Proof.
  pose proof (checked_or_skipped_update i tag d P) as H.
  unfold checked_or_skipped, mbind, M_bind in *.
  destruct (update_reloc_in_img i tag d) as [s1 [[]|x]]; simpl in *; done.
Qed.

Lemma reloc_import_settled i d :
  checked_or_skipped (reloc_import i d) d i (import_skipped d (instrs d i)).
Proof.
  unfold reloc_import, import_skipped.
  apply checked_or_skipped_bind; [keeps_solve|]. intros r d1 Hr.
  unfold gets in Hr. injection Hr as <- <-.
  destruct (is_boundary_jmp (instrs d i)) eqn:Hb.
  { apply checked_or_skipped_skip; [keeps_solve|by left]. }
  apply checked_or_skipped_bind; [keeps_solve|]. intros [] d2 H2.
  unfold modify_instr, modify in H2. injection H2 as <-.
  apply checked_or_skipped_bind; [keeps_solve|]. intros imp d3 H3.
  unfold gets in H3. simpl in H3. injection H3 as <- <-.
  destruct (imports d !! ea (instr (instrs d i))) as [[|e]|] eqn:Hi.
  - apply checked_or_skipped_skip; [keeps_solve|by right; right].
  - apply checked_or_skipped_bind; [keeps_solve|]. intros rva d4 _.
    apply checked_or_skipped_bind; [keeps_solve|]. intros _ d5 _.
    apply checked_or_skipped_bind; [keeps_solve|]. intros _ d6 _.
    apply checked_or_skipped_bind; [apply keeps_buffer_resolve_disp|]. intros _ d7 _.
    apply checked_or_skipped_update_emit.
  - apply checked_or_skipped_skip; [keeps_solve|by right; left].
Qed.

Lemma reloc_ctrlflow_settled rfn i d :
  checked_or_skipped (reloc_ctrlflow rfn i d) d i (is_obf_import (instrs d i) = true).
Proof.
  unfold reloc_ctrlflow.
  apply checked_or_skipped_bind; [keeps_solve|]. intros r d1 Hr.
  unfold gets in Hr. injection Hr as <- <-.
  destruct (is_obf_import (instrs d i)) eqn:Ho.
  { apply checked_or_skipped_skip; [keeps_solve|done]. }
  apply checked_or_skipped_bind.
  { destruct (is_call (instr (instrs d i))); apply keeps_buffer_lookup_reloc. }
  intros reloc_dest d2 _.
  apply checked_or_skipped_bind; [keeps_solve|]. intros _ d3 _.
  apply checked_or_skipped_bind; [apply keeps_buffer_resolve_imm|]. intros _ d4 _.
  apply checked_or_skipped_update.
Qed.

Lemma reloc_dataflow_settled i d : checked_or_skipped (reloc_dataflow i d) d i False.
Proof.
  unfold reloc_dataflow.
  apply checked_or_skipped_bind; [keeps_solve|]. intros r d1 _.
  apply checked_or_skipped_bind; [keeps_solve|]. intros _ d2 _.
  apply checked_or_skipped_bind; [keeps_solve|]. intros _ d3 _.
  apply checked_or_skipped_bind; [apply keeps_buffer_dataflow_dest|]. intros dest d4 _.
  apply checked_or_skipped_bind; [apply keeps_buffer_resolve_disp|]. intros _ d5 _.
  apply checked_or_skipped_update.
Qed.

(** C5. After the patch of every fixup category the step decodes the patched
    bytes again at the instruction's relocated address and records the
    result.  For an import reference, a jump or conditional jump, a
    reassembled call and a data reference alike, with the patched bytes each
    of them produces: a decoded size different from the length of the patched
    bytes makes the step end in the fault [Failed_<category>_Reloc] with the
    output buffer as it was; the bytes at the relocated address are replaced
    by the patched bytes exactly when the sizes agree.  On any input a step
    that faults leaves the buffer as it was, and a step that returns without
    having skipped its instruction leaves it with bytes that decode, at the
    relocated address, to an instruction of their own length. *)
Theorem fixup_patch_is_length_checked :
  (∀ i d t,
     let r := instrs d i in
     is_boundary_jmp r = false → import_target d r t → disp_size (instr r) = 4 →
     checked_outcome (reloc_import i d) d i "Import"
       (slice_assign (bytes (instr r)) (disp_offset (instr r))
          (disp_offset (instr r) + 4)
          (le32 ((t - (reloc_ea r + size (instr r))) mod 2 ^ 32))))
  ∧ (∀ rfn i d t,
       let r := instrs d i in
       let n := len (updated_bytes r) in
       is_obf_import r = false → is_call (instr r) = false →
       (is_jmp (instr r) = true ∧ n = 5)
       ∨ (is_jmp (instr r) = false ∧ is_jcc (instr r) = true ∧ n = 6) →
       global_relocs d !! (rfn_func_start_ea rfn, op1_imm (instr r), false) = Some t →
       t ≠ 0 → t ≠ -1 →
       checked_outcome (reloc_ctrlflow rfn i d) d i "CtrlFlow"
         (take (Z.to_nat (n - 4)) (updated_bytes r)
          ++ le32 ((t - (reloc_ea r + n)) mod 2 ^ 32)))
  ∧ (∀ rfn i d t bs,
       let r := instrs d i in
       is_obf_import r = false → is_call (instr r) = true →
       global_relocs d !! (op1_imm (instr r), op1_imm (instr r), false) = Some t →
       t ≠ 0 → t ≠ -1 →
       ks_asm (mnemonic (instr r)) t (reloc_ea r) = Some bs →
       checked_outcome (reloc_ctrlflow rfn i d) d i "CtrlFlow" bs)
  ∧ (∀ i d t,
       let r := instrs d i in
       dataflow_target d r t → disp_size (instr r) = 4 →
       checked_outcome (reloc_dataflow i d) d i "DataFlow"
         (slice_assign (bytes (instr r)) (disp_offset (instr r))
            (disp_offset (instr r) + 4)
            (le32 ((t - (reloc_ea r + size (instr r))) mod 2 ^ 32))))
  ∧ (∀ i d,
       checked_or_skipped (reloc_import i d) d i (import_skipped d (instrs d i)))
  ∧ (∀ rfn i d,
       checked_or_skipped (reloc_ctrlflow rfn i d) d i
         (is_obf_import (instrs d i) = true))
  ∧ (∀ i d, checked_or_skipped (reloc_dataflow i d) d i False).
Proof.
  split; [apply reloc_import_checked|].
  split; [apply reloc_jump_checked|].
  split; [apply reloc_call_checked|].
  split; [apply reloc_dataflow_checked|].
  split; [apply reloc_import_settled|].
  split; [apply reloc_ctrlflow_settled|apply reloc_dataflow_settled].
Qed.
End Relocation.

(** ** The properties at the sample inputs *)

Lemma alignment_and_padding_witness :
  0x1000 mod 16 = 0
  ∧ let d' := (build_relocations sample_decode sample_asm 0x1000 false layout_input).1 in
    map fst (cfg d') = map fst (cfg layout_input)
    ∧ Forall (λ f, rfn_reloc_ea (snd f) mod 16 = 0) (cfg d')
    ∧ ∀ (k : nat) f1 f2,
        cfg d' !! k = Some f1 → cfg d' !! S k = Some f2 →
        rfn_reloc_ea (snd f1) + flow_size layout_input (normalized_flow (snd f1)) + 8
          ≤ rfn_reloc_ea (snd f2).
Proof.
  split; [reflexivity|].
  apply (build_relocations_alignment_and_padding
           sample_decode sample_asm layout_input 0x1000 false).
  reflexivity.
Defined.

Lemma jump_fixup_witness :
  let r := instrs jump_input 0%nat in
  let n := len (updated_bytes r) in
  updated_bytes (instrs (reloc_ctrlflow sample_decode sample_asm jump_func 0 jump_input).1 0%nat)
  = take (Z.to_nat (n - 4)) (updated_bytes r)
    ++ le32 ((0x1020 - (reloc_ea r + n)) mod 2 ^ 32).
Proof.
  apply (jump_fixup_patches_last_four_bytes
           sample_decode sample_asm jump_func 0 jump_input 0x1020).
  - reflexivity.
  - reflexivity.
  - left. split; reflexivity.
  - vm_compute. reflexivity.
  - lia.
  - lia.
Defined.

(** C2, as stated, at the synthetic boundary jump of [jump_input]: the
    relocation map holds 0x1100 under the key that carries the instruction's
    own flag, and the patched displacement is not the one computed from it. *)
Lemma jump_fixup_ignores_boundary_flag :
  let r := instrs jump_input 0%nat in
  is_jmp (instr r) = true
  ∧ is_obf_import r = false
  ∧ global_relocs jump_input
      !! (rfn_func_start_ea jump_func, op1_imm (instr r), is_boundary_jmp r)
    = Some 0x1100
  ∧ updated_bytes
      (instrs (reloc_ctrlflow sample_decode sample_asm jump_func 0 jump_input).1 0%nat)
    ≠ take 1 (updated_bytes r) ++ le32 ((0x1100 - (reloc_ea r + 5)) mod 2 ^ 32).
Proof.
  vm_compute. split; [reflexivity|]. split; [reflexivity|]. split; [reflexivity|].
  intros H. discriminate H.
Qed.

Lemma dataflow_data_reference_witness :
  let d := data_input in
  let r := instrs d 0%nat in
  let D := disp_dest (instr r) in
  (∀ g, dataflow_dest r (set_global_relocs g d) = (set_global_relocs g d, Ok D))
  ∧ (∀ g, updated_bytes (instrs (reloc_dataflow sample_decode 0 (set_global_relocs g d)).1 0%nat)
          = with_disp32 (bytes (instr r)) (disp_offset (instr r))
              ((D - (reloc_ea r + size (instr r))) mod 2 ^ 32))
  ∧ rip_target (instrs (reloc_dataflow sample_decode 0 d).1 0%nat) = D.
Proof.
  apply (dataflow_data_reference_keeps_target sample_decode 0 data_input).
  - reflexivity.
  - reflexivity.
  - vm_compute. intros H. discriminate H.
  - vm_compute. intros H. discriminate H.
  - vm_compute. split; [intros H; discriminate H|reflexivity].
Defined.

Lemma disp32_fixup_witness :
  let d := import_input {[0x2000 := create_file]} {["CreateFileW" := 0x5008]} in
  let r := instrs d 0%nat in
  let off := disp_offset (instr r) in
  let v := (0x5008 - (reloc_ea r + size (instr r))) mod 2 ^ 32 in
  let patched := updated_bytes (instrs (reloc_import sample_decode 0 d).1 0%nat) in
  patched = with_disp32 (bytes (instr r)) off v
  ∧ length patched = length (bytes (instr r))
  ∧ (∀ k : nat, (k < 4)%nat → patched !! (Z.to_nat off + k)%nat = le32 v !! k)
  ∧ (∀ j : nat, Z.of_nat j < off ∨ off + 4 ≤ Z.of_nat j →
                patched !! j = bytes (instr r) !! j).
Proof.
  apply (disp32_fixup_replaces_only_displacement sample_decode 0
           (import_input {[0x2000 := create_file]} {["CreateFileW" := 0x5008]})
           0x5008 (reloc_import sample_decode 0)).
  - left. split; [reflexivity|]. split; [reflexivity|].
    exists (mkRecoveredImport "CreateFileW" "kernel32.dll" None).
    split; vm_compute; reflexivity.
  - reflexivity.
  - vm_compute. intros H. discriminate H.
  - vm_compute. intros H. discriminate H.
Defined.

(** C5 at an import reference, a jump, a call and a data reference; the
    data reference is decoded by a disassembler that stops one byte short. *)
Lemma fixup_patch_length_check_witness :
  (let d := import_input {[0x2000 := create_file]} {["CreateFileW" := 0x5008]} in
   let r := instrs d 0%nat in
   checked_outcome sample_decode (reloc_import sample_decode 0 d) d 0 "Import"
     (slice_assign (bytes (instr r)) (disp_offset (instr r))
        (disp_offset (instr r) + 4)
        (le32 ((0x5008 - (reloc_ea r + size (instr r))) mod 2 ^ 32))))
  ∧ (let d := jump_input in
     let r := instrs d 0%nat in
     let n := len (updated_bytes r) in
     checked_outcome sample_decode
       (reloc_ctrlflow sample_decode sample_asm jump_func 0 d) d 0 "CtrlFlow"
       (take (Z.to_nat (n - 4)) (updated_bytes r)
        ++ le32 ((0x1020 - (reloc_ea r + n)) mod 2 ^ 32)))
  ∧ (let d := call_input in
     checked_outcome sample_decode
       (reloc_ctrlflow sample_decode sample_asm
          (mkRecoveredFunc 0x2000 0x1000 [0%nat] [] [0%nat] []) 0 d) d 0 "CtrlFlow"
       [0xE8; 0xFB; 0x03; 0x00; 0x00])
  ∧ (let d := data_input in
     let r := instrs d 0%nat in
     checked_outcome short_decode (reloc_dataflow short_decode 0 d) d 0 "DataFlow"
       (slice_assign (bytes (instr r)) (disp_offset (instr r))
          (disp_offset (instr r) + 4)
          (le32 ((0x64788 - (reloc_ea r + size (instr r))) mod 2 ^ 32)))).
Proof.
  pose proof (fixup_patch_is_length_checked sample_decode sample_asm) as (Hi&Hj&Hc&_).
  pose proof (fixup_patch_is_length_checked short_decode sample_asm) as (_&_&_&Hd&_).
  split; [|split; [|split]].
  - apply (Hi 0%nat
             (import_input {[0x2000 := create_file]} {["CreateFileW" := 0x5008]})
             0x5008).
    + reflexivity.
    + exists (mkRecoveredImport "CreateFileW" "kernel32.dll" None).
      split; vm_compute; reflexivity.
    + reflexivity.
  - apply (Hj jump_func 0%nat jump_input 0x1020).
    + reflexivity.
    + reflexivity.
    + left. split; reflexivity.
    + vm_compute. reflexivity.
    + lia.
    + lia.
  - apply (Hc (mkRecoveredFunc 0x2000 0x1000 [0%nat] [] [0%nat] []) 0%nat call_input
             0x1400).
    + reflexivity.
    + reflexivity.
    + vm_compute. reflexivity.
    + lia.
    + lia.
    + vm_compute. reflexivity.
  - apply (Hd 0%nat data_input 0x64788).
    + vm_compute. reflexivity.
    + reflexivity.
Defined.

Lemma import_missing_metadata_witness :
  (let d := import_input ∅ ∅ in
   (reloc_import sample_decode 0 d).2 = Ok tt
   ∧ events (reloc_import sample_decode 0 d).1 = events d ++ [EvInput (MsgNoImpEntry 0)]
   ∧ newimgbuffer (reloc_import sample_decode 0 d).1 = newimgbuffer d)
  ∧ (let d := import_input {[0x2000 := create_file]} ∅ in
     (reloc_import sample_decode 0 d).2
       = Raise (if disp_size (instr (instrs d 0%nat)) =? 4
                then TypeError else AssertionError)
     ∧ newimgbuffer (reloc_import sample_decode 0 d).1 = newimgbuffer d).
Proof.
  split.
  - apply (proj1 (import_fixup_missing_metadata sample_decode 0
                    (import_input ∅ ∅) eq_refl)).
    vm_compute. reflexivity.
  - apply (proj2 (import_fixup_missing_metadata sample_decode 0
                    (import_input {[0x2000 := create_file]} ∅) eq_refl)
             (mkRecoveredImport "CreateFileW" "kernel32.dll" None)).
    + vm_compute. reflexivity.
    + vm_compute. reflexivity.
Defined.

(** C8, as stated, at an import reference whose address has no entry in the
    imports table: the step, and the whole fixup run of the function, end
    without a fault. *)
Lemma import_without_entry_raises_nothing :
  let d := import_input ∅ {["CreateFileW" := 0x5008]} in
  let r := instrs d 0%nat in
  is_boundary_jmp r = false
  ∧ imports d !! ea (instr r) = None
  ∧ ¬ (∃ x, (reloc_import sample_decode 0 d).2 = Raise x)
  ∧ (apply_all_fixups_to_rfn sample_decode sample_asm
       (mkRecoveredFunc 0x2000 0x1000 [0%nat] [0%nat] [] []) d).2 = Ok tt.
Proof.
  vm_compute. split; [reflexivity|]. split; [reflexivity|].
  split; [|reflexivity]. intros [x H]. discriminate H.
Qed.

Lemma selective_clear_witness :
  let d := selective_input in
  let sel := selective_func_rva d in
  let template := selective_template in
  let buf' := newimgbuffer
                (prepare_output (sample_headerless [])
                   (sample_template selective_template) d).1 in
  sel ≤ 4 ∧ 4 + 14 ≤ len template
  ∧ buf' = zero_range template sel (4 + 14)
  ∧ length buf' = length template
  ∧ (∀ j : nat, sel ≤ Z.of_nat j < 4 + 14 → buf' !! j = Some 0)
  ∧ (∀ j : nat, Z.of_nat j < sel ∨ 4 + 14 ≤ Z.of_nat j → buf' !! j = template !! j).
Proof.
  apply (selective_clear_zero_fills_from_function_start (sample_headerless [])
           (sample_template selective_template) selective_input 4).
  - reflexivity.
  - intros H. discriminate H.
  - vm_compute. intros H. discriminate H.
  - vm_compute. reflexivity.
  - lia.
Defined.

(** C9, as stated, at [selective_input]: the selected function occupies
    offsets 2 and 3 and the sentinel is found at offset 4, right after it.
    Whatever offset after the function's start is taken for the function's
    end, the buffer is not the template zero-filled from there through the
    end of the sentinel: the function's own bytes are zeroed too. *)
Lemma selective_clear_zeroes_the_function_itself :
  let template := selective_template in
  let sel := selective_func_rva selective_input in
  let buf' := newimgbuffer
                (prepare_output (sample_headerless [])
                   (sample_template selective_template) selective_input).1 in
  py_find template END_MARKER sel = 4
  ∧ template !! 2%nat = Some 0x90
  ∧ buf' !! 2%nat = Some 0
  ∧ ¬ (∃ function_end, sel < function_end ∧ buf' = zero_range template function_end (4 + 14)).
Proof.
  split; [vm_compute; reflexivity|]. split; [reflexivity|].
  split; [vm_compute; reflexivity|].
  intros (fe&Hfe&Heq).
  apply (f_equal (λ l : bytes_t, l !! 2%nat)) in Heq.
  change (selective_func_rva selective_input) with 2 in Hfe.
  unfold zero_range in Heq.
  rewrite lookup_app_l in Heq by (rewrite length_take; simpl; lia).
  rewrite lookup_take_lt in Heq by lia.
  vm_compute in Heq. discriminate Heq.
Qed.

(** C6 at a SELECTIVE input whose selected function is at offset 2: the
    offset handed to [build_relocations] is 0x1000, the one function is laid
    out there, and the selected address only reaches the attribute
    [d.func_rva]. *)
Example rebuild_output_selective_starts_at_0x1000 :
  let run := rebuild_output sample_decode sample_asm (sample_headerless [])
               (sample_template selective_template) false selective_input in
  protection_type selective_input = SELECTIVE
  ∧ selective_func_rva selective_input = 2
  ∧ (prepare_output (sample_headerless []) (sample_template selective_template)
       selective_input).2 = Ok 0x1000
  ∧ map (λ f, rfn_reloc_ea (snd f)) (cfg run.1) = [0x1000]
  ∧ global_relocs run.1 !! (0x2000, 0x2000, false) = Some 0x1000
  ∧ func_rva run.1 = Some 2.
Proof. vm_compute. repeat split; reflexivity. Qed.

(** C10 at two preserved call sites of which the first has no new RVA: the
    miss is logged, the pass ends in a [TypeError] that [build_relocations]
    lets through, and the second call site, whose symbol has an RVA, keeps
    its bytes. *)
Example preserve_original_imports_stops_at_missing_rva :
  let run := preserve_original_imports preserve_input in
  import_to_rva_map preserve_input !! "GetLastError" = None
  ∧ import_to_rva_map preserve_input !! "ExitProcess" = Some 0x5010
  ∧ run.2 = Raise TypeError
  ∧ events run.1 = [EvLogInfo (MsgPreserving 0x10 "GetLastError")]
  ∧ newimgbuffer run.1 = newimgbuffer preserve_input
  ∧ take 4 (drop (Z.to_nat (0x20 + 2)) (newimgbuffer run.1))
    ≠ le32 ((0x5010 - (0x20 + 6)) mod 2 ^ 32)
  ∧ (build_relocations sample_decode sample_asm 0x1000 true preserve_input).2
    = Raise TypeError.
Proof.
  vm_compute. repeat split; try reflexivity. intros H. discriminate H.
Qed.

(** The length check at the data-flow instruction of [data_input]: with a
    decoder that reads the patched bytes one byte short the step ends in the
    fault and the buffer keeps its bytes; with a decoder that reads all ten
    bytes the patched bytes land at the relocated address. *)
Example length_mismatch_leaves_buffer :
  let bad := reloc_dataflow short_decode 0 data_input in
  let good := reloc_dataflow sample_decode 0 data_input in
  let patched := [0xC7; 0x05; 0x7E; 0x37; 0x06; 0x00; 0x01; 0x00; 0x00; 0x00] in
  updated_bytes (instrs bad.1 0%nat) = patched
  ∧ bad.2 = Raise (ValueError "Failed_DataFlow_Reloc")
  ∧ newimgbuffer bad.1 = newimgbuffer data_input
  ∧ good.2 = Ok tt
  ∧ newimgbuffer good.1
    = slice_assign (newimgbuffer data_input) 0x1000 (0x1000 + 10) patched.
Proof. vm_compute. repeat split; reflexivity. Qed.

(** ** The further properties at the sample inputs *)

Lemma emit_flow_witness :
  let d := layout_input in
  (emit_flow 0x2000 [0%nat; 1%nat] 8 d).2 = Ok (8 + len (flow_code d [0%nat; 1%nat]))
  ∧ newimgbuffer (emit_flow 0x2000 [0%nat; 1%nat] 8 d).1
    = splice (newimgbuffer d) 8 (flow_code d [0%nat; 1%nat]).
Proof.
  apply (emit_flow_writes_contiguous_code 0x2000 [0%nat; 1%nat] 8 layout_input).
  lia.
Defined.

Lemma emitter_prefix_witness :
  let d := layout_input in
  take (Z.to_nat 16) (newimgbuffer (emitter 16 d).1) = take (Z.to_nat 16) (newimgbuffer d)
  ∧ len (newimgbuffer d) ≤ len (newimgbuffer (emitter 16 d).1).
Proof.
  apply (emitter_keeps_bytes_below_start layout_input 16).
  vm_compute. split; intros H; discriminate H.
Defined.

Lemma call_fixup_witness :
  let d := call_input in
  let r := instrs d 0%nat in
  match sample_asm (mnemonic (instr r)) 0x1400 (reloc_ea r) with
  | Some bs =>
      updated_bytes
        (instrs (reloc_ctrlflow sample_decode sample_asm
                   (mkRecoveredFunc 0x2000 0x1000 [0%nat] [] [0%nat] []) 0 d).1 0%nat) = bs
  | None =>
      reloc_ctrlflow sample_decode sample_asm
        (mkRecoveredFunc 0x2000 0x1000 [0%nat] [] [0%nat] []) 0 d = (d, Raise KsError)
  end.
Proof.
  apply (call_fixup_is_reassembled sample_decode sample_asm
           (mkRecoveredFunc 0x2000 0x1000 [0%nat] [] [0%nat] []) 0 call_input 0x1400).
  - reflexivity.
  - reflexivity.
  - vm_compute. reflexivity.
  - lia.
  - lia.
Defined.

Lemma ctrlflow_unresolved_witness :
  let d := set_global_relocs ∅ jump_input in
  reloc_ctrlflow sample_decode sample_asm jump_func 0 d
  = (d, Raise (ValueError (if is_call (instr (instrs d 0%nat))
                           then "Call_Reloc" else "JxxJmp_Reloc"))).
Proof.
  apply (ctrlflow_unresolved_target_is_a_fault sample_decode sample_asm jump_func 0
           (set_global_relocs ∅ jump_input)).
  - reflexivity.
  - vm_compute. reflexivity.
Defined.

Lemma ctrlflow_placeholder_witness :
  reloc_ctrlflow sample_decode sample_asm jump_func 0 short_jump_input
  = (short_jump_input, Raise AssertionError).
Proof.
  apply (ctrlflow_placeholder_is_asserted sample_decode sample_asm jump_func 0
           short_jump_input 0x1020).
  - reflexivity.
  - reflexivity.
  - vm_compute. reflexivity.
  - lia.
  - lia.
  - left. split; [reflexivity|]. vm_compute. intros H. discriminate H.
Defined.

Lemma dataflow_unresolved_witness :
  let d := code_ref_input {[(0x46e9a, 0x46e9a, false) := 0]} in
  let r := instrs d 0%nat in
  let run := reloc_dataflow sample_decode 0 d in
  run.2 = Raise (ValueError "ResolveFixup_LEA")
  ∧ newimgbuffer run.1 = newimgbuffer d
  ∧ updated_bytes (instrs run.1 0%nat) = bytes (instr r).
Proof.
  intros d r run.
  assert (IS_IN_DATA d (disp_dest (instr r)) = false) as Hin by reflexivity.
  assert (truthy (global_relocs d !! (disp_dest (instr r), disp_dest (instr r), false))
          = false) as Hk by (vm_compute; reflexivity).
  pose proof (dataflow_unresolved_target_is_a_fault sample_decode 0 d Hin Hk) as H.
  vm_compute in H. vm_compute. exact H.
Defined.

Lemma boundary_import_witness :
  let d := boundary_import_input in
  let r := instrs d 0%nat in
  let n := len (updated_bytes r) in
  let run := (reloc_import sample_decode 0 ;;
              reloc_ctrlflow sample_decode sample_asm jump_func 0) d in
  is_obf_import r = true
  ∧ updated_bytes (instrs run.1 0%nat)
    = take (Z.to_nat (n - 4)) (updated_bytes r)
      ++ le32 ((0x1020 - (reloc_ea r + n)) mod 2 ^ 32).
Proof.
  split; [reflexivity|].
  apply (boundary_import_is_fixed_as_jump sample_decode sample_asm jump_func 0
           boundary_import_input 0x1020).
  - reflexivity.
  - reflexivity.
  - left. split; reflexivity.
  - vm_compute. reflexivity.
  - lia.
  - lia.
Defined.

Lemma import_zero_rva_witness :
  let d := import_input {[0x2000 := create_file]} {["CreateFileW" := 0]} in
  let r := instrs d 0%nat in
  let off := disp_offset (instr r) in
  let d' := (reloc_import sample_decode 0 d).1 in
  (∃ E, events d' = events d ++ EvPrint (MsgNoNewRva 0) :: E)
  ∧ imports d' !! ea (instr r)
    = Some (Imp (set_new_rva (Some 0)
                   (mkRecoveredImport "CreateFileW" "kernel32.dll" None)))
  ∧ updated_bytes (instrs d' 0%nat)
    = with_disp32 (bytes (instr r)) off ((0 - (reloc_ea r + size (instr r))) mod 2 ^ 32).
Proof.
  apply (import_with_zero_rva_is_patched sample_decode 0
           (import_input {[0x2000 := create_file]} {["CreateFileW" := 0]})
           (mkRecoveredImport "CreateFileW" "kernel32.dll" None)).
  - reflexivity.
  - vm_compute. reflexivity.
  - vm_compute. reflexivity.
  - reflexivity.
  - vm_compute. intros H. discriminate H.
  - vm_compute. intros H. discriminate H.
Defined.


Lemma unknown_dataflow_witness :
  let d := code_ref_input {[(0x46e9a, 0x46e9a, false) := 0x1400]} in
  let r := instrs d 0%nat in
  let off := disp_offset (instr r) in
  let d' := (reloc_dataflow sample_decode 0 d).1 in
  events d'
  = events d ++ (if bool_decide (id (instr r) ∈ KNOWN) then []
                 else [EvPrint MsgMissingDataflow; EvInput MsgStoppingIteration])
  ∧ updated_bytes (instrs d' 0%nat)
    = with_disp32 (bytes (instr r)) off
        ((0x1400 - (reloc_ea r + size (instr r))) mod 2 ^ 32).
Proof.
  apply (unknown_dataflow_instruction_is_reported_and_patched sample_decode 0
           (code_ref_input {[(0x46e9a, 0x46e9a, false) := 0x1400]}) 0x1400).
  - vm_compute. split; [reflexivity|]. intros H. discriminate H.
  - reflexivity.
  - vm_compute. intros H. discriminate H.
  - vm_compute. intros H. discriminate H.
Defined.

Lemma selective_fallback_witness :
  let d := selective_input in
  let sel := selective_func_rva d in
  let run := prepare_output (sample_headerless []) (sample_template bare_template) d in
  events run.1 = events d
  ∧ if sel <=? 0x1531f
    then run.2 = Ok 0x1000
         ∧ newimgbuffer run.1
           = take (Z.to_nat sel) bare_template
             ++ replicate (Z.to_nat (0x1531f - sel)) 0
             ++ drop (Z.to_nat 0x1531f) bare_template
    else run.2 = Raise (ValueError "negative count")
         ∧ newimgbuffer run.1 = bare_template.
Proof.
  apply (selective_clear_without_sentinel (sample_headerless [])
           (sample_template bare_template) selective_input).
  - reflexivity.
  - intros H. discriminate H.
  - vm_compute. intros H. discriminate H.
  - vm_compute. reflexivity.
Defined.

Lemma rebuild_output_refusal_witness :
  rebuild_output sample_decode sample_asm (sample_headerless [])
    (sample_template bare_template) true preserve_input
  = (preserve_input, Raise AssertionError).
Proof.
  apply (rebuild_output_refuses_bad_input sample_decode sample_asm
           (sample_headerless []) (sample_template bare_template) true preserve_input).
  left. reflexivity.
Defined.

Lemma preserve_every_site_witness :
  let d := preserve_all_input in
  let run := preserve_original_imports d in
  run.2 = Ok tt
  ∧ newimgbuffer run.1
    = foldl (preserve_patch (import_to_rva_map d)) (newimgbuffer d)
        (imports_to_preserve d).
Proof.
  apply (preserve_original_imports_patches_every_site preserve_all_input).
  repeat constructor; eexists; vm_compute; reflexivity.
Defined.

Lemma dataflow_idempotent_witness :
  let d := code_ref_input {[(0x46e9a, 0x46e9a, false) := 0x1400]} in
  let d1 := (reloc_dataflow sample_decode 0 d).1 in
  let d2 := (reloc_dataflow sample_decode 0 d1).1 in
  (reloc_dataflow sample_decode 0 d1).2 = (reloc_dataflow sample_decode 0 d).2
  ∧ updated_bytes (instrs d2 0%nat) = updated_bytes (instrs d1 0%nat)
  ∧ newimgbuffer d2 = newimgbuffer d1.
Proof.
  apply (dataflow_fixup_is_idempotent sample_decode 0
           (code_ref_input {[(0x46e9a, 0x46e9a, false) := 0x1400]}) 0x1400).
  - vm_compute. split; [reflexivity|]. intros H. discriminate H.
  - reflexivity.
  - vm_compute. split; intros H; discriminate H.
Defined.
